(** * The A64 JIT coordinator of dynarmic (src/backend_x64/a64_interface.cpp)

    A shallow embedding of [Jit::Impl]: the driver [Run], the request/perform
    split of cache invalidation, the lazy lookup [GetCurrentBlock] and the
    guest-state accessors.  The coordinator's fields are a record, its member
    functions are computations in a small monad that threads the record,
    records the calls made to the collaborators in program order, and can end
    in a thrown [std::out_of_range] or in a failed [ASSERT]. *)

From Stdlib Require Import ZArith Lia Bool.
From stdpp Require Import base option list gmap.

Local Open Scope Z_scope.

(** ** Machine integers

    [u64] and [size_t] are 64 bits wide on the x64 backend.  Values are kept
    in [Z]; the places where the source computes in unsigned arithmetic write
    the reduction modulo [2^64] out. *)

Definition u64_modulus : Z := 2 ^ 64.

Definition wrap64 (z : Z) : Z := z mod u64_modulus.

Definition is_u64 (z : Z) : Prop := 0 <= z < u64_modulus.

(** ** boost::icl::interval_set<u64>

    The invalidation set of the coordinator.  The library is not part of the
    repository; it is modelled by what the source relies on: closed discrete
    intervals, an [add] that ignores an empty interval and joins the new one
    with every stored interval it overlaps or touches, [empty] and [clear]. *)

Module ICL.

Definition interval : Type := Z * Z.

(** [discrete_interval<u64>::closed(lo, up)] *)
Definition closed (lo up : Z) : interval := (lo, up).

Definition lower (i : interval) : Z := fst i.
Definition upper (i : interval) : Z := snd i.

Definition is_empty (i : interval) : bool := upper i <? lower i.

Definition contains (i : interval) (a : Z) : bool :=
  (lower i <=? a) && (a <=? upper i).

Definition interval_set : Type := list interval.

Definition set_contains (S : interval_set) (a : Z) : bool :=
  existsb (fun i => contains i a) S.

Definition empty (S : interval_set) : bool :=
  match S with [] => true | _ => false end.

Definition clear (S : interval_set) : interval_set := [].

(** Insertion of a non-empty interval into an ordered sequence of
    intervals: the stored intervals lying strictly before or strictly after
    it (with a gap) are kept, the others are absorbed. *)
Fixpoint join (lo up : Z) (S : interval_set) : interval_set :=
  match S with
  | [] => [(lo, up)]
  | (l, u) :: S' =>
      if up + 1 <? l then (lo, up) :: (l, u) :: S'
      else if u + 1 <? lo then (l, u) :: join lo up S'
      else join (Z.min lo l) (Z.max up u) S'
  end.

Definition add (i : interval) (S : interval_set) : interval_set :=
  if is_empty i then S else join (lower i) (upper i) S.

(** Two intervals meet when they share an address. *)
Definition intersects (i j : interval) : bool :=
  negb (is_empty i) && negb (is_empty j)
  && (lower i <=? upper j) && (lower j <=? upper i).

Definition set_intersects (S : interval_set) (j : interval) : bool :=
  existsb (fun i => intersects i j) S.

(** An address below every interval of the sequence. *)
Definition above (b : Z) (S : interval_set) : Prop :=
  match S with
  | [] => True
  | (l, _) :: _ => b < l
  end.

(** The invariant of a joining interval set: every interval is non-empty,
    and consecutive intervals are in increasing order with a gap between
    them. *)
Fixpoint separated (S : interval_set) : Prop :=
  match S with
  | [] => True
  | (l, u) :: S' =>
      l <= u /\
      match S' with
      | [] => True
      | (l', _) :: _ => u + 1 < l'
      end /\ separated S'
  end.

End ICL.

(** ** Guest state (backend_x64/a64_jitstate.h)

    The header is outside this file.  [Jit::Impl] uses the members [reg],
    [vec], [sp], [pc], [halt_requested], [ResetRSB] and [GetUniqueHash], and
    value-initialises the whole structure in [Reset]. *)

(** Modelled from the spec: the sizes of the register arrays of
    [A64JitState], which the header declares.  The guest has 31 general
    registers next to the stack pointer (index 31 is the alias of [sp]) and 32
    vector registers, each stored as a low and a high 64-bit word. *)
Definition NumRegs : nat := 31.
Definition NumVecWords : nat := 64.

(** Modelled from the spec: the guest state, "register file
    (general-purpose registers, a vector register file, program counter,
    stack pointer, processor status/flag bits, floating-point control bits), a
    halt-request flag" and the return stack buffer, a bounded list of
    predicted return targets (context key, host code pointer). *)
Record A64JitState : Type := mkA64JitState {
  reg : list Z;
  sp : Z;
  pc : Z;
  vec : list Z;
  pstate : Z;
  fpcr : Z;
  halt_requested : bool;
  rsb : list (Z * Z)
}.

(** Modelled from the spec: the value-initialised guest state,
    "constructed fresh (zeroed)", with an empty return stack buffer. *)
Definition A64JitState_init : A64JitState :=
  {| reg := replicate NumRegs 0; sp := 0; pc := 0;
     vec := replicate NumVecWords 0; pstate := 0; fpcr := 0;
     halt_requested := false; rsb := [] |}.

(** Modelled from the spec: [A64JitState::ResetRSB], the "reset of the
    return-address prediction structure": no prediction survives. *)
Definition ResetRSB (js : A64JitState) : A64JitState :=
  {| reg := reg js; sp := sp js; pc := pc js; vec := vec js;
     pstate := pstate js; fpcr := fpcr js;
     halt_requested := halt_requested js; rsb := [] |}.

Definition set_halt_requested (b : bool) (js : A64JitState) : A64JitState :=
  {| reg := reg js; sp := sp js; pc := pc js; vec := vec js;
     pstate := pstate js; fpcr := fpcr js;
     halt_requested := b; rsb := rsb js |}.

Definition set_sp (v : Z) (js : A64JitState) : A64JitState :=
  {| reg := reg js; sp := v; pc := pc js; vec := vec js;
     pstate := pstate js; fpcr := fpcr js;
     halt_requested := halt_requested js; rsb := rsb js |}.

Definition set_pc (v : Z) (js : A64JitState) : A64JitState :=
  {| reg := reg js; sp := sp js; pc := v; vec := vec js;
     pstate := pstate js; fpcr := fpcr js;
     halt_requested := halt_requested js; rsb := rsb js |}.

Definition set_reg (r : list Z) (js : A64JitState) : A64JitState :=
  {| reg := r; sp := sp js; pc := pc js; vec := vec js;
     pstate := pstate js; fpcr := fpcr js;
     halt_requested := halt_requested js; rsb := rsb js |}.

Definition set_vec (w : list Z) (js : A64JitState) : A64JitState :=
  {| reg := reg js; sp := sp js; pc := pc js; vec := w;
     pstate := pstate js; fpcr := fpcr js;
     halt_requested := halt_requested js; rsb := rsb js |}.

(** [std::array::at]: the element at [index], or nothing when [index] is not
    below the size (the source then throws [std::out_of_range]). *)
Definition array_at (l : list Z) (index : Z) : option Z :=
  if (0 <=? index) && (index <? Z.of_nat (length l))
  then l !! Z.to_nat index else None.

(** [Jit::Vector]: the two halves of a vector register. *)
Record Vector : Type := mkVector { low : Z; high : Z }.

(** ** The collaborators of the coordinator *)

(** The translation pipeline and the parts of the emitter that depend on the
    intermediate representation.  Their definitions live in other files of
    the repository (frontend/A64/translate, ir_opt/passes, a64_emit_x64,
    a64_jitstate); the coordinator only calls them, so they are taken as an
    interface. *)
Class Pipeline : Type := {
  IRBlock : Type;
  (** [A64JitState::GetUniqueHash]: the context key of a guest state. *)
  GetUniqueHash : A64JitState -> Z;
  (** [A64::Translate(location, memory_read_code)] *)
  Translate : Z -> (Z -> Z) -> IRBlock;
  (** [Optimization::DeadCodeElimination], which rewrites the block. *)
  DeadCodeElimination : IRBlock -> IRBlock;
  (** [Optimization::VerificationPass]: [false] when one of its assertions
      fails, which is fatal. *)
  VerificationPass : IRBlock -> bool;
  (** The key under which the emitter registers a block. *)
  Location : IRBlock -> Z;
  (** The guest addresses a block was translated from. *)
  guest_range : IRBlock -> ICL.interval;
  (** The number of bytes of host code the emitter writes for a block. *)
  host_code_size : IRBlock -> Z
}.

(** Modelled from the spec: [BlockOfCode], the code buffer runtime, as far
    as the coordinator sees it: "report remaining executable-memory capacity;
    clear all executable memory".  The buffer has a size and a fill level; the
    next block is written at the fill level. *)
Module BlockOfCode.

Record t : Type := mk { total_size : Z; used : Z }.

Definition SpaceRemaining (b : t) : Z := total_size b - used b.

Definition ClearCache (b : t) : t := {| total_size := total_size b; used := 0 |}.

Definition getCurr (b : t) : Z := used b.

Definition advance (n : Z) (b : t) : t :=
  {| total_size := total_size b; used := used b + n |}.

End BlockOfCode.

(** Modelled from the spec: [A64EmitX64], the cache/emit collaborator:
    "lookup-by-context-key returning an optional existing entry point;
    compile-and-register taking an optimized block and returning its entry
    point; clear-all; invalidate-by-range-set".  The block table maps a
    context key to the descriptor of the compiled block. *)
Module EmitX64.

Record BlockDescriptor : Type := mkBlockDescriptor {
  entrypoint : Z;
  range : ICL.interval
}.

Record t : Type := mk { block_descriptors : gmap Z BlockDescriptor }.

Definition GetBasicBlock (e : t) (key : Z) : option BlockDescriptor :=
  block_descriptors e !! key.

Definition ClearCache (e : t) : t := {| block_descriptors := ∅ |}.

Definition stale (ranges : ICL.interval_set) (d : BlockDescriptor) : bool :=
  ICL.set_intersects ranges (range d).

Definition InvalidateCacheRanges (ranges : ICL.interval_set) (e : t) : t :=
  {| block_descriptors :=
       filter (fun kd : Z * BlockDescriptor => stale ranges (snd kd) = false)
              (block_descriptors e) |}.

Definition register (key : Z) (d : BlockDescriptor) (e : t) : t :=
  {| block_descriptors := <[key := d]> (block_descriptors e) |}.

End EmitX64.

(** ** The coordinator [Jit::Impl] *)

(** [UserConfig]: of the host callbacks the coordinator itself passes on only
    [MemoryReadCode]; tick accounting is consumed by the generated code. *)
Record UserConfig : Type := mkUserConfig { MemoryReadCode : Z -> Z }.

Record Impl : Type := mkImpl {
  is_executing : bool;
  conf : UserConfig;
  jit_state : A64JitState;
  block_of_code : BlockOfCode.t;
  emitter : EmitX64.t;
  invalidate_entire_cache : bool;
  invalid_cache_ranges : ICL.interval_set
}.

Definition with_is_executing (b : bool) (s : Impl) : Impl :=
  {| is_executing := b; conf := conf s; jit_state := jit_state s;
     block_of_code := block_of_code s; emitter := emitter s;
     invalidate_entire_cache := invalidate_entire_cache s;
     invalid_cache_ranges := invalid_cache_ranges s |}.

Definition with_jit_state (js : A64JitState) (s : Impl) : Impl :=
  {| is_executing := is_executing s; conf := conf s; jit_state := js;
     block_of_code := block_of_code s; emitter := emitter s;
     invalidate_entire_cache := invalidate_entire_cache s;
     invalid_cache_ranges := invalid_cache_ranges s |}.

Definition with_block_of_code (b : BlockOfCode.t) (s : Impl) : Impl :=
  {| is_executing := is_executing s; conf := conf s; jit_state := jit_state s;
     block_of_code := b; emitter := emitter s;
     invalidate_entire_cache := invalidate_entire_cache s;
     invalid_cache_ranges := invalid_cache_ranges s |}.

Definition with_emitter (e : EmitX64.t) (s : Impl) : Impl :=
  {| is_executing := is_executing s; conf := conf s; jit_state := jit_state s;
     block_of_code := block_of_code s; emitter := e;
     invalidate_entire_cache := invalidate_entire_cache s;
     invalid_cache_ranges := invalid_cache_ranges s |}.

Definition with_invalidate_entire_cache (b : bool) (s : Impl) : Impl :=
  {| is_executing := is_executing s; conf := conf s; jit_state := jit_state s;
     block_of_code := block_of_code s; emitter := emitter s;
     invalidate_entire_cache := b;
     invalid_cache_ranges := invalid_cache_ranges s |}.

Definition with_invalid_cache_ranges (r : ICL.interval_set) (s : Impl) : Impl :=
  {| is_executing := is_executing s; conf := conf s; jit_state := jit_state s;
     block_of_code := block_of_code s; emitter := emitter s;
     invalidate_entire_cache := invalidate_entire_cache s;
     invalid_cache_ranges := r |}.

(** The coordinator as constructed: idle, nothing pending, fresh guest state,
    empty code buffer and block table. *)
Definition Impl_init (c : UserConfig) (code_size : Z) : Impl :=
  {| is_executing := false; conf := c; jit_state := A64JitState_init;
     block_of_code := BlockOfCode.mk code_size 0;
     emitter := EmitX64.mk ∅;
     invalidate_entire_cache := false;
     invalid_cache_ranges := [] |}.

(** *** Effects

    What a member function does besides changing fields of the guest
    registers is recorded in program order: the writes of the coordinator's
    own flags and of the invalidation set, and the calls to the
    collaborators. *)
Inductive Event : Type :=
| EvIsExecuting (b : bool)
| EvHaltRequested (b : bool)
| EvInvalidateEntireCache (b : bool)
| EvRangesAdd (i : ICL.interval)
| EvRangesClear
| EvJitStateReset
| EvResetRSB
| EvRunCode
| EvRunCodeReturn
| EvBlockOfCodeClearCache
| EvEmitterClearCache
| EvEmitterInvalidateCacheRanges (ranges : ICL.interval_set)
| EvGetBasicBlock (key : Z)
| EvSpaceRemaining (n : Z)
| EvTranslate (key : Z)
| EvDeadCodeElimination
| EvVerificationPass
| EvEmit (key : Z).

(** How a member function ends: it returns, it throws [std::out_of_range]
    (the only exception the coordinator raises), or an [ASSERT] fails, which
    terminates the process. *)
Inductive Outcome (A : Type) : Type :=
| Ok (a : A) (s : Impl)
| OutOfRange (s : Impl)
| Abort.

Arguments Ok {A} a s.
Arguments OutOfRange {A} s.
Arguments Abort {A}.

Definition Comp (A : Type) : Type := Impl -> list Event * Outcome A.

Definition trace {A} (r : list Event * Outcome A) : list Event := fst r.
Definition outcome {A} (r : list Event * Outcome A) : Outcome A := snd r.

Definition ret {A} (a : A) : Comp A := fun s => ([], Ok a s).

Definition bind {A B} (m : Comp A) (k : A -> Comp B) : Comp B :=
  fun s =>
    match m s with
    | (t, Ok a s') => let (t', o) := k a s' in (t ++ t', o)
    | (t, OutOfRange s') => (t, OutOfRange s')
    | (t, Abort) => (t, Abort)
    end.

Declare Scope comp_scope.
Delimit Scope comp_scope with comp.
Bind Scope comp_scope with Comp.

Notation "x <- m ;; k" := (bind m (fun x => k))
  (at level 100, m at next level, right associativity) : comp_scope.
Notation "m ;; k" := (bind m (fun _ => k))
  (at level 100, right associativity) : comp_scope.

Local Open Scope comp_scope.

Definition gets {A} (f : Impl -> A) : Comp A := fun s => ([], Ok (f s) s).

Definition modify (f : Impl -> Impl) : Comp unit := fun s => ([], Ok tt (f s)).

(** A recorded step: the event and the change of the coordinator. *)
Definition step (e : Event) (f : Impl -> Impl) : Comp unit :=
  fun s => ([e], Ok tt (f s)).

(** A recorded call that leaves the coordinator as it is. *)
Definition note (e : Event) : Comp unit := fun s => ([e], Ok tt s).

Definition throw_out_of_range {A} : Comp A := fun s => ([], OutOfRange s).

(** [ASSERT(cond)] of common/assert.h: a failed assertion is fatal. *)
Definition ASSERT (cond : bool) : Comp unit :=
  fun s => if cond then ([], Ok tt s) else ([], Abort).

(** [SCOPE_EXIT({ body })] of common/scope_exit.h, followed by the rest of
    the enclosing scope: [body] runs when the scope is left, by its end or by
    an exception passing through; nothing runs after a failed [ASSERT]. *)
Definition SCOPE_EXIT {A} (body : Comp unit) (scope : Comp A) : Comp A :=
  fun s =>
    match scope s with
    | (t, Ok a s') =>
        match body s' with
        | (t', Ok _ s'') => (t ++ t', Ok a s'')
        | (t', OutOfRange s'') => (t ++ t', OutOfRange s'')
        | (t', Abort) => (t ++ t', Abort)
        end
    | (t, OutOfRange s') =>
        match body s' with
        | (t', Ok _ s'') => (t ++ t', OutOfRange s'')
        | (t', OutOfRange s'') => (t ++ t', OutOfRange s'')
        | (t', Abort) => (t ++ t', Abort)
        end
    | (t, Abort) => (t, Abort)
    end.

(** The field writes of the coordinator. *)
Definition write_is_executing (b : bool) : Comp unit :=
  step (EvIsExecuting b) (with_is_executing b).

Definition write_halt_requested (b : bool) : Comp unit :=
  step (EvHaltRequested b)
       (fun s => with_jit_state (set_halt_requested b (jit_state s)) s).

Definition write_invalidate_entire_cache (b : bool) : Comp unit :=
  step (EvInvalidateEntireCache b) (with_invalidate_entire_cache b).

(** *** Member functions *)

Section Coordinator.

Context {P : Pipeline}.

(** Lines 176-190. *)
Definition PerformRequestedCacheInvalidation : Comp unit :=
  entire <- gets invalidate_entire_cache ;;
  ranges <- gets invalid_cache_ranges ;;
  if negb entire && ICL.empty ranges then ret tt
  else
    step EvResetRSB (fun s => with_jit_state (ResetRSB (jit_state s)) s) ;;
    (if entire then
       step EvBlockOfCodeClearCache
            (fun s => with_block_of_code
                        (BlockOfCode.ClearCache (block_of_code s)) s) ;;
       step EvEmitterClearCache
            (fun s => with_emitter (EmitX64.ClearCache (emitter s)) s)
     else
       step (EvEmitterInvalidateCacheRanges ranges)
            (fun s => with_emitter
                        (EmitX64.InvalidateCacheRanges ranges (emitter s)) s)) ;;
    step EvRangesClear
         (fun s => with_invalid_cache_ranges
                     (ICL.clear (invalid_cache_ranges s)) s) ;;
    write_invalidate_entire_cache false.

(** Lines 167-174. *)
Definition RequestCacheInvalidation : Comp unit :=
  executing <- gets is_executing ;;
  if executing then write_halt_requested true
  else PerformRequestedCacheInvalidation.

(** Lines 62-65. *)
Definition ClearCache : Comp unit :=
  write_invalidate_entire_cache true ;;
  RequestCacheInvalidation.

(** The interval line 68-69 builds: the sum is taken in 64-bit unsigned
    arithmetic. *)
Definition invalidated_interval (start_address length : Z) : ICL.interval :=
  let end_address := wrap64 (start_address + length - 1) in
  ICL.closed start_address end_address.

(** Lines 67-72. *)
Definition InvalidateCacheRange (start_address length : Z) : Comp unit :=
  let range := invalidated_interval start_address length in
  step (EvRangesAdd range)
       (fun s => with_invalid_cache_ranges
                   (ICL.add range (invalid_cache_ranges s)) s) ;;
  RequestCacheInvalidation.

(** Lines 74-77. *)
Definition Reset : Comp unit :=
  executing <- gets is_executing ;;
  ASSERT (negb executing) ;;
  step EvJitStateReset (with_jit_state A64JitState_init).

(** Lines 79-81. *)
Definition HaltExecution : Comp unit := write_halt_requested true.

(** Lines 83-97. *)
Definition GetSP : Comp Z := gets (fun s => sp (jit_state s)).

Definition SetSP (value : Z) : Comp unit :=
  modify (fun s => with_jit_state (set_sp value (jit_state s)) s).

Definition GetPC : Comp Z := gets (fun s => pc (jit_state s)).

Definition SetPC (value : Z) : Comp unit :=
  modify (fun s => with_jit_state (set_pc value (jit_state s)) s).

(** Read and write of one array element through [at]. *)
Definition reg_at (index : Z) : Comp Z :=
  r <- gets (fun s => reg (jit_state s)) ;;
  match array_at r index with
  | Some v => ret v
  | None => throw_out_of_range
  end.

Definition reg_at_put (index value : Z) : Comp unit :=
  r <- gets (fun s => reg (jit_state s)) ;;
  match array_at r index with
  | Some _ =>
      modify (fun s => with_jit_state
                         (set_reg (<[Z.to_nat index := value]> r) (jit_state s)) s)
  | None => throw_out_of_range
  end.

Definition vec_at (index : Z) : Comp Z :=
  w <- gets (fun s => vec (jit_state s)) ;;
  match array_at w index with
  | Some v => ret v
  | None => throw_out_of_range
  end.

Definition vec_at_put (index value : Z) : Comp unit :=
  w <- gets (fun s => vec (jit_state s)) ;;
  match array_at w index with
  | Some _ =>
      modify (fun s => with_jit_state
                         (set_vec (<[Z.to_nat index := value]> w) (jit_state s)) s)
  | None => throw_out_of_range
  end.

(** Lines 99-103. *)
Definition GetRegister (index : Z) : Comp Z :=
  if index =? 31 then GetSP else reg_at index.

(** Lines 105-109. *)
Definition SetRegister (index value : Z) : Comp unit :=
  if index =? 31 then SetSP value else reg_at_put index value.

(** Lines 111-113: [index * 2] and [index * 2 + 1] are [size_t]
    expressions. *)
Definition GetVector (index : Z) : Comp Vector :=
  lo <- vec_at (wrap64 (index * 2)) ;;
  hi <- vec_at (wrap64 (index * 2 + 1)) ;;
  ret (mkVector lo hi).

(** Lines 115-118. *)
Definition SetVector (index : Z) (value : Vector) : Comp unit :=
  vec_at_put (wrap64 (index * 2)) (low value) ;;
  vec_at_put (wrap64 (index * 2 + 1)) (high value).

(** Lines 120-134, [GetFpcr], [SetFpcr], [GetPstate] and [SetPstate], pass
    their argument and result through to member functions of [A64JitState]
    that are defined outside this file; they take no part in what follows and
    are left out. *)

(** Lines 136-138. *)
Definition IsExecuting : Comp bool := gets is_executing.

(** [emitter.Emit(ir_block)]: the block is written at the current position of
    the code buffer and registered under its location. *)
Definition Emit (ir : IRBlock) : Comp EmitX64.BlockDescriptor :=
  fun s =>
    let d := {| EmitX64.entrypoint := BlockOfCode.getCurr (block_of_code s);
                EmitX64.range := guest_range ir |} in
    ([EvEmit (Location ir)],
     Ok d (with_emitter (EmitX64.register (Location ir) d (emitter s))
             (with_block_of_code
                (BlockOfCode.advance (host_code_size ir) (block_of_code s)) s))).

Definition MINIMUM_REMAINING_CODESIZE : Z := 1 * 1024 * 1024.

(** Lines 146-165. *)
Definition GetCurrentBlock : Comp Z :=
  current_location <- gets (fun s => GetUniqueHash (jit_state s)) ;;
  note (EvGetBasicBlock current_location) ;;
  block <- gets (fun s => EmitX64.GetBasicBlock (emitter s) current_location) ;;
  match block with
  | Some b => ret (EmitX64.entrypoint b)
  | None =>
      space <- gets (fun s => BlockOfCode.SpaceRemaining (block_of_code s)) ;;
      note (EvSpaceRemaining space) ;;
      (if space <? MINIMUM_REMAINING_CODESIZE then
         write_invalidate_entire_cache true ;;
         PerformRequestedCacheInvalidation
       else ret tt) ;;
      read <- gets (fun s => MemoryReadCode (conf s)) ;;
      note (EvTranslate current_location) ;;
      note EvDeadCodeElimination ;;
      note EvVerificationPass ;;
      let ir_block := DeadCodeElimination (Translate current_location read) in
      ASSERT (VerificationPass ir_block) ;;
      d <- Emit ir_block ;;
      ret (EmitX64.entrypoint d)
  end.

(** Lines 50-60.  [RunCode] is what [block_of_code.RunCode(&jit_state)]
    does before it returns. *)
Definition Run (RunCode : Comp unit) : Comp unit :=
  executing <- gets is_executing ;;
  ASSERT (negb executing) ;;
  write_is_executing true ;;
  SCOPE_EXIT (write_is_executing false)
    (write_halt_requested false ;;
     note EvRunCode ;;
     RunCode ;;
     note EvRunCodeReturn ;;
     PerformRequestedCacheInvalidation).

(** *** Generated code

    [BlockOfCode::RunCode] transfers control to generated code, which is not
    part of this file.  Modelled from the spec: the generated code runs on
    the caller's stack and, before it returns, re-enters the coordinator any
    number of times: through the lookup callback ([GetCurrentBlockThunk]), or
    through host callbacks that call the public interface. *)
#[warnings="-register-all"]
Inductive Call : Type :=
| CallLookupBlock
| CallRun (generated : list Call)
| CallClearCache
| CallInvalidateCacheRange (start_address length : Z)
| CallReset
| CallHaltExecution
| CallSetSP (value : Z)
| CallSetPC (value : Z)
| CallSetRegister (index value : Z)
| CallSetVector (index : Z) (value : Vector).

Fixpoint call (c : Call) : Comp unit :=
  match c with
  | CallLookupBlock => GetCurrentBlock ;; ret tt
  | CallRun generated =>
      Run ((fix calls (g : list Call) : Comp unit :=
              match g with
              | [] => ret tt
              | c' :: g' => call c' ;; calls g'
              end) generated)
  | CallClearCache => ClearCache
  | CallInvalidateCacheRange start_address length =>
      InvalidateCacheRange start_address length
  | CallReset => Reset
  | CallHaltExecution => HaltExecution
  | CallSetSP value => SetSP value
  | CallSetPC value => SetPC value
  | CallSetRegister index value => SetRegister index value
  | CallSetVector index value => SetVector index value
  end.

Fixpoint RunCode (generated : list Call) : Comp unit :=
  match generated with
  | [] => ret tt
  | c :: g => call c ;; RunCode g
  end.

End Coordinator.

(** ** A pipeline to run the coordinator on

    Each guest address is translated to a block of one four-byte instruction
    that takes 64 bytes of host code; the context key is the program
    counter. *)
#[export] Instance sample_pipeline : Pipeline := {|
  IRBlock := Z;
  GetUniqueHash := pc;
  Translate := fun location _ => location;
  DeadCodeElimination := fun b => b;
  VerificationPass := fun _ => true;
  Location := fun b => b;
  guest_range := fun b => ICL.closed b (b + 3);
  host_code_size := fun _ => 64
|}.

Definition sample_config : UserConfig := mkUserConfig (fun _ => 0).

(** A coordinator with a 2 MiB code buffer, as constructed. *)
Definition sample_idle : Impl := Impl_init sample_config (2 * 1024 * 1024).

(** The same coordinator inside [Run]. *)
Definition sample_executing : Impl := with_is_executing true sample_idle.

(** ** Vocabulary of the statements *)

(** The coordinator after the full-clear branch of
    [PerformRequestedCacheInvalidation]: return stack buffer reset, code
    buffer and block table cleared, nothing pending. *)
Definition cleared (s : Impl) : Impl :=
  with_invalidate_entire_cache false
    (with_invalid_cache_ranges []
       (with_emitter (EmitX64.ClearCache (emitter s))
          (with_block_of_code (BlockOfCode.ClearCache (block_of_code s))
             (with_jit_state (ResetRSB (jit_state s)) s)))).

Definition clear_events : list Event :=
  [EvResetRSB; EvBlockOfCodeClearCache; EvEmitterClearCache; EvRangesClear;
   EvInvalidateEntireCache false].

(** The coordinator after the selective branch. *)
Definition range_invalidated (s : Impl) : Impl :=
  with_invalidate_entire_cache false
    (with_invalid_cache_ranges []
       (with_emitter
          (EmitX64.InvalidateCacheRanges (invalid_cache_ranges s) (emitter s))
          (with_jit_state (ResetRSB (jit_state s)) s))).

Definition range_events (s : Impl) : list Event :=
  [EvResetRSB; EvEmitterInvalidateCacheRanges (invalid_cache_ranges s);
   EvRangesClear; EvInvalidateEntireCache false].

(** The descriptor [Emit] builds for a block and the coordinator after
    [Emit] registered it. *)
Definition new_descriptor {P : Pipeline} (ir : IRBlock) (s : Impl)
  : EmitX64.BlockDescriptor :=
  {| EmitX64.entrypoint := BlockOfCode.getCurr (block_of_code s);
     EmitX64.range := guest_range ir |}.

Definition emitted {P : Pipeline} (ir : IRBlock) (s : Impl) : Impl :=
  with_emitter
    (EmitX64.register (Location ir) (new_descriptor ir s) (emitter s))
    (with_block_of_code
       (BlockOfCode.advance (host_code_size ir) (block_of_code s)) s).

(** Nothing is pending. *)
Definition nothing_pending (s : Impl) : Prop :=
  invalidate_entire_cache s = false /\ invalid_cache_ranges s = [].

(** The events and the result of a drain. *)
Definition drain_events (s : Impl) : list Event :=
  trace (PerformRequestedCacheInvalidation s).

Definition drained (s : Impl) : Impl :=
  match outcome (PerformRequestedCacheInvalidation s) with
  | Ok _ s' => s'
  | _ => s
  end.

(** What is pending in [s] is still pending in [s']. *)
Definition pending_kept (s s' : Impl) : Prop :=
  (invalidate_entire_cache s = true -> invalidate_entire_cache s' = true)
  /\ (forall a, ICL.set_contains (invalid_cache_ranges s) a = true ->
                 ICL.set_contains (invalid_cache_ranges s') a = true).

(** The invalidation a call asked for is pending in [s']. *)
Definition requested (c : Call) (s' : Impl) : Prop :=
  match c with
  | CallClearCache => invalidate_entire_cache s' = true
  | CallInvalidateCacheRange start_address length =>
      forall a,
        ICL.contains (invalidated_interval start_address length) a = true ->
        ICL.set_contains (invalid_cache_ranges s') a = true
  | _ => True
  end.

(** The coordinator at the moment [Run] calls [RunCode]. *)
Definition entered (s : Impl) : Impl :=
  with_jit_state (set_halt_requested false (jit_state s))
    (with_is_executing true s).

(** The events by which a drain touches the cache, the return stack buffer
    or the invalidation set. *)
Definition is_drain_event (e : Event) : bool :=
  match e with
  | EvResetRSB | EvBlockOfCodeClearCache | EvEmitterClearCache
  | EvEmitterInvalidateCacheRanges _ | EvRangesClear => true
  | _ => false
  end.

(** A capacity check that found less than the low-water mark. *)
Definition is_low_space_event (e : Event) : bool :=
  match e with
  | EvSpaceRemaining n => n <? MINIMUM_REMAINING_CODESIZE
  | _ => false
  end.

(** "First marks the coordinator idle and then performs any invalidation":
    no drain event is recorded before [is_executing] is written [false]. *)
Fixpoint idle_before_drain (t : list Event) : bool :=
  match t with
  | [] => true
  | EvIsExecuting false :: _ => true
  | e :: t' => negb (is_drain_event e) && idle_before_drain t'
  end.

(** The events recorded while the generated code runs: those that precede
    the return of [RunCode]. *)
Fixpoint until_return (t : list Event) : list Event :=
  match t with
  | [] => []
  | EvRunCodeReturn :: _ => []
  | e :: t' => e :: until_return t'
  end.

(** "Performed exactly once, when [Run] next returns": the generated code
    runs without a drain event. *)
Definition deferred_until_return (t : list Event) : bool :=
  negb (existsb is_drain_event (until_return t)).


(** The invalidation set a call leaves behind. *)
Definition pending_after (m : Comp unit) (s : Impl) : ICL.interval_set :=
  match outcome (m s) with
  | Ok _ s' => invalid_cache_ranges s'
  | OutOfRange s' => invalid_cache_ranges s'
  | Abort => []
  end.

(** No compiled block covers an address of the interval. *)
Definition no_block_in (i : ICL.interval) (s : Impl) : Prop :=
  forall key d,
    EmitX64.GetBasicBlock (emitter s) key = Some d ->
    ICL.intersects i (EmitX64.range d) = false.

(** The calls that request an invalidation. *)
Definition is_request (c : Call) : bool :=
  match c with
  | CallClearCache | CallInvalidateCacheRange _ _ => true
  | _ => false
  end.

(** The invalidation a call asked for has taken effect in [s']: no block is
    left at all, or none in the interval. *)
Definition performed (c : Call) (s' : Impl) : Prop :=
  match c with
  | CallClearCache => EmitX64.block_descriptors (emitter s') = ∅
  | CallInvalidateCacheRange start_address length =>
      no_block_in (invalidated_interval start_address length) s'
  | _ => True
  end.

(** The events of [Run] up to the call of [RunCode]. *)
Definition run_prefix : list Event :=
  [EvIsExecuting true; EvHaltRequested false; EvRunCode].

(** What a call on the guest registers leaves alone: the coordinator's own
    flags, its configuration, the code buffer, the block table, what is
    pending, the halt-request flag and the return stack buffer. *)
Definition only_registers_differ (s s' : Impl) : Prop :=
  is_executing s' = is_executing s
  /\ conf s' = conf s
  /\ block_of_code s' = block_of_code s
  /\ emitter s' = emitter s
  /\ invalidate_entire_cache s' = invalidate_entire_cache s
  /\ invalid_cache_ranges s' = invalid_cache_ranges s
  /\ halt_requested (jit_state s') = halt_requested (jit_state s)
  /\ rsb (jit_state s') = rsb (jit_state s)
  /\ pstate (jit_state s') = pstate (jit_state s)
  /\ fpcr (jit_state s') = fpcr (jit_state s).

(** A call that returned or threw, recorded nothing and kept
    [only_registers_differ]. *)
Definition silent_on_cache (s : Impl) (r : list Event * Outcome unit) : Prop :=
  match r with
  | (t, Ok _ s') => t = [] /\ only_registers_differ s s'
  | (t, OutOfRange s') => t = [] /\ only_registers_differ s s'
  | (t, Abort) => False
  end.

(** A coordinator whose code buffer passes the low-water mark once one block
    has been emitted. *)
Definition sample_tight : Impl := Impl_init sample_config (1024 * 1024 + 63).

(** Generated code that compiles the block at 4096, has its range
    invalidated by a host callback, and goes on to the block at 8192. *)
Definition callbacks_until_request : list Call :=
  [CallSetPC 4096; CallLookupBlock; CallInvalidateCacheRange 4096 4].

Definition callbacks_with_lookup : list Call :=
  callbacks_until_request ++ [CallSetPC 8192; CallLookupBlock].

(** Generated code whose second lookup finds the capacity of [sample_tight]
    low and evacuates the cache, before any request is made. *)
Definition callbacks_with_evacuation : list Call :=
  [CallSetPC 4096; CallLookupBlock; CallSetPC 8192; CallLookupBlock].

(** * Properties *)

Local Open Scope comp_scope.

(** ** Machine integers *)

Lemma wrap64_range z : is_u64 (wrap64 z).
Proof. unfold is_u64, wrap64, u64_modulus. apply Z.mod_pos_bound. lia. Qed.

Lemma wrap64_small z : is_u64 z -> wrap64 z = z.
Proof. unfold is_u64, wrap64. intros H. apply Z.mod_small. exact H. Qed.

Lemma u64_modulus_eq : u64_modulus = 18446744073709551616.
Proof. reflexivity. Qed.

(** ** The model at work *)

Example add_between :
  ICL.add (5, 6) [(1, 3); (9, 10)] = [(1, 3); (5, 6); (9, 10)].
Proof. reflexivity. Qed.

Example add_touching :
  ICL.add (4, 8) [(1, 3); (9, 10)] = [(1, 10)].
Proof. reflexivity. Qed.

Example add_overlapping :
  ICL.add (2, 20) [(1, 3); (9, 10); (30, 40)] = [(1, 20); (30, 40)].
Proof. reflexivity. Qed.

Example add_empty_interval : ICL.add (7, 6) [(1, 3)] = [(1, 3)].
Proof. reflexivity. Qed.

Example interval_of_four_bytes : invalidated_interval 4096 4 = (4096, 4099).
Proof. reflexivity. Qed.

Example interval_at_the_top :
  invalidated_interval (2 ^ 64 - 4) 4 = (2 ^ 64 - 4, 2 ^ 64 - 1).
Proof. reflexivity. Qed.

Example register_30_then_31 :
  outcome ((SetRegister 30 7 ;; SetRegister 31 9 ;;
            a <- GetRegister 30 ;; b <- GetSP ;; ret (a, b)) sample_idle)
  = outcome ((SetRegister 30 7 ;; SetRegister 31 9 ;; ret (7, 9)) sample_idle).
Proof. reflexivity. Qed.

Example register_32_throws :
  SetRegister 32 1 sample_idle = ([], OutOfRange sample_idle).
Proof. reflexivity. Qed.

Example lookup_twice_hits :
  trace ((SetPC 4096 ;; GetCurrentBlock ;; GetCurrentBlock) sample_idle)
  = [EvGetBasicBlock 4096; EvSpaceRemaining 2097152; EvTranslate 4096;
     EvDeadCodeElimination; EvVerificationPass; EvEmit 4096;
     EvGetBasicBlock 4096].
Proof. vm_compute. reflexivity. Qed.

Example range_invalidation_is_scoped :
  match outcome ((SetPC 4096 ;; GetCurrentBlock ;;
                  SetPC 8192 ;; GetCurrentBlock ;;
                  InvalidateCacheRange 4098 1) sample_idle) with
  | Ok _ s =>
      EmitX64.GetBasicBlock (emitter s) 4096 = None
      /\ EmitX64.GetBasicBlock (emitter s) 8192
         = Some (EmitX64.mkBlockDescriptor 64 (8192, 8195))
  | _ => False
  end.
Proof. vm_compute. split; reflexivity. Qed.

(** ** Guest-state accessors *)

(** C4: register index 31 is the stack pointer, in both directions:
    [SetRegister(31, v)] is [SetSP(v)], after it [GetSP()] returns [v];
    after [SetSP(v)], [GetRegister(31)] returns [v]; and [GetRegister(31)]
    is [GetSP()] in every state. *)
Theorem C4_register_31_is_sp :
  forall (s : Impl) (v : Z),
    SetRegister 31 v s = SetSP v s
    /\ (SetRegister 31 v ;; GetSP) s
       = ([], Ok v (with_jit_state (set_sp v (jit_state s)) s))
    /\ (SetSP v ;; GetRegister 31) s
       = ([], Ok v (with_jit_state (set_sp v (jit_state s)) s))
    /\ GetRegister 31 s = GetSP s.
Proof.
  intros s v. repeat split; reflexivity.
Qed.

Lemma array_at_replicate (n : nat) (index : Z) :
  0 <= index < Z.of_nat n -> array_at (replicate n 0) index = Some 0.
Proof.
  intros H. unfold array_at. rewrite length_replicate.
  replace (0 <=? index) with true by (symmetry; apply Z.leb_le; lia).
  replace (index <? Z.of_nat n) with true by (symmetry; apply Z.ltb_lt; lia).
  simpl. apply lookup_replicate_2. lia.
Qed.

Lemma array_at_out_of_range (l : list Z) (index : Z) :
  Z.of_nat (length l) <= index -> array_at l index = None.
Proof.
  intros H. unfold array_at.
  replace (index <? Z.of_nat (length l)) with false
    by (symmetry; apply Z.ltb_ge; lia).
  now rewrite andb_false_r.
Qed.

(** ** Reset *)

(** C5: [Reset], called while not executing, value-initialises the guest
    state: every general register, the program counter and the stack pointer
    read back as zero and the halt-request flag is false; the code buffer,
    the block table and the pending invalidation are left as they were, so
    every key that was a cache hit still is. *)
Theorem C5_reset_isolation :
  forall s : Impl,
    is_executing s = false ->
    let s' := with_jit_state A64JitState_init s in
    Reset s = ([EvJitStateReset], Ok tt s')
    /\ (forall index, 0 <= index <= 31 -> GetRegister index s' = ([], Ok 0 s'))
    /\ (forall index, 0 <= index <= 31 ->
        GetVector index s' = ([], Ok (mkVector 0 0) s'))
    /\ GetPC s' = ([], Ok 0 s')
    /\ GetSP s' = ([], Ok 0 s')
    /\ halt_requested (jit_state s') = false
    /\ emitter s' = emitter s
    /\ block_of_code s' = block_of_code s
    /\ (forall key,
          EmitX64.GetBasicBlock (emitter s') key
          = EmitX64.GetBasicBlock (emitter s) key).
Proof.
  intros s Hidle s'. repeat split.
  - unfold Reset, bind, gets, ASSERT, step. simpl. rewrite Hidle. reflexivity.
  - intros index Hindex. unfold GetRegister.
    destruct (index =? 31) eqn:E; [reflexivity|].
    apply Z.eqb_neq in E.
    unfold reg_at, bind, gets.
    change (reg (jit_state s')) with (replicate NumRegs 0).
    rewrite (array_at_replicate NumRegs index) by (unfold NumRegs; lia).
    reflexivity.
  - intros index Hindex. unfold GetVector.
    rewrite !wrap64_small by (unfold is_u64; rewrite u64_modulus_eq; lia).
    unfold vec_at, bind, gets, ret.
    change (vec (jit_state s')) with (replicate NumVecWords 0).
    rewrite (array_at_replicate NumVecWords (index * 2))
      by (unfold NumVecWords; lia).
    cbv beta iota.
    change (vec (jit_state s')) with (replicate NumVecWords 0).
    rewrite (array_at_replicate NumVecWords (index * 2 + 1))
      by (unfold NumVecWords; lia).
    reflexivity.
Qed.

Lemma C5_reset_isolation_witness :
  is_executing sample_idle = false
  /\ Reset sample_idle
     = ([EvJitStateReset], Ok tt (with_jit_state A64JitState_init sample_idle)).
Proof.
  split; [reflexivity|].
  apply (C5_reset_isolation sample_idle). reflexivity.
Defined.

(** ** Non-reentrancy *)

Lemma Run_while_executing (body : Comp unit) (s : Impl) :
  is_executing s = true -> Run body s = ([], Abort).
Proof.
  intros Hexec. unfold Run, bind, gets, ASSERT. simpl. now rewrite Hexec.
Qed.

Lemma Reset_while_executing (s : Impl) :
  is_executing s = true -> Reset s = ([], Abort).
Proof.
  intros Hexec. unfold Reset, bind, gets, ASSERT. simpl. now rewrite Hexec.
Qed.

(** C9: [Run] and [Reset] called while the coordinator is executing fail
    their first statement, the assertion, before any field is written or any
    collaborator is called; the same holds when the call comes from a
    callback of the generated code. *)
Theorem C9_reentrant_call_is_fatal :
  forall {P : Pipeline} (s : Impl) (generated : list Call),
    is_executing s = true ->
    Run (RunCode generated) s = ([], Abort)
    /\ Reset s = ([], Abort)
    /\ call (CallRun generated) s = ([], Abort)
    /\ call CallReset s = ([], Abort).
Proof.
  intros P s generated Hexec. repeat split.
  - now apply Run_while_executing.
  - now apply Reset_while_executing.
  - simpl. now apply Run_while_executing.
  - simpl. now apply Reset_while_executing.
Qed.

Lemma C9_reentrant_call_is_fatal_witness :
  is_executing sample_executing = true
  /\ Run (RunCode [CallLookupBlock]) sample_executing = ([], Abort).
Proof.
  split; [reflexivity|].
  apply (C9_reentrant_call_is_fatal sample_executing [CallLookupBlock]).
  reflexivity.
Defined.

(** A [Run] whose generated code calls [Run] or [Reset] again never returns:
    the nested call aborts. *)
Lemma nested_Run_aborts {P : Pipeline} (s : Impl) (inner rest : list Call) :
  is_executing s = false ->
  Run (RunCode (CallRun inner :: rest)) s
  = ([EvIsExecuting true; EvHaltRequested false; EvRunCode], Abort).
Proof.
  intros Hidle. unfold Run at 1. unfold bind at 1. unfold gets.
  unfold bind at 1. unfold ASSERT. rewrite Hidle. simpl negb. cbv iota.
  unfold bind at 1. unfold write_is_executing at 1. unfold step at 1.
  unfold trace, outcome, SCOPE_EXIT.
  unfold bind at 1. unfold write_halt_requested at 1, step at 1.
  unfold bind at 1. unfold note at 1.
  unfold bind at 1.
  change (RunCode (CallRun inner :: rest))
    with (call (CallRun inner) ;; RunCode rest).
  unfold bind at 1.
  simpl call. rewrite Run_while_executing by reflexivity.
  reflexivity.
Qed.

(** ** The invalidation set *)

Module ICLFacts.

Import ICL.

Lemma contains_iff (i : interval) (a : Z) :
  contains i a = true <-> lower i <= a <= upper i.
Proof.
  unfold contains. rewrite andb_true_iff, !Z.leb_le. reflexivity.
Qed.

Lemma set_contains_cons (i : interval) (S : interval_set) (a : Z) :
  set_contains (i :: S) a = contains i a || set_contains S a.
Proof. reflexivity. Qed.

Lemma separated_cons l u S :
  separated ((l, u) :: S) <-> l <= u /\ above (u + 1) S /\ separated S.
Proof. destruct S as [|[l' u'] S]; simpl; tauto. Qed.

Lemma separated_above b l u S :
  separated ((l, u) :: S) -> b <= u + 1 -> above b S.
Proof.
  rewrite separated_cons. intros (_ & Hab & _) Hb.
  destruct S as [|[l' u'] S]; simpl in *; lia.
Qed.

(** [join] keeps the sequence ordered and gapped, and does not reach below
    the new interval and the old sequence. *)
Lemma join_separated (S : interval_set) :
  forall lo up b,
    lo <= up -> separated S -> above b S -> b < lo ->
    separated (join lo up S) /\ above b (join lo up S).
Proof.
  induction S as [|[l u] S IH]; intros lo up b Hlu Hsep Hab Hb.
  - simpl. lia.
  - apply separated_cons in Hsep as (Hne & Hgap & Hsep).
    cbn [join].
    destruct (up + 1 <? l) eqn:E1.
    + apply Z.ltb_lt in E1. split; [|exact Hb].
      rewrite separated_cons. split; [lia|]. split; [exact E1|].
      rewrite separated_cons. tauto.
    + apply Z.ltb_ge in E1.
      destruct (u + 1 <? lo) eqn:E2.
      * apply Z.ltb_lt in E2.
        destruct (IH lo up (u + 1) Hlu Hsep Hgap E2) as (Hs & Ha).
        split; [|exact Hab].
        rewrite separated_cons. tauto.
      * apply Z.ltb_ge in E2. simpl in Hab.
        apply IH; try lia; try assumption.
        destruct S as [|[l' u'] S]; simpl in *; lia.
Qed.

Lemma add_separated (i : interval) (S : interval_set) :
  separated S -> separated (add i S).
Proof.
  intros Hsep. unfold add. destruct (is_empty i) eqn:E; [exact Hsep|].
  unfold is_empty in E. apply Z.ltb_ge in E.
  destruct S as [|[l u] S'] eqn:ES.
  - simpl. lia.
  - rewrite <- ES in *.
    apply (join_separated S (lower i) (upper i) (Z.min (lower i) l - 1));
      try lia; try assumption.
    rewrite ES. simpl. lia.
Qed.

(** The addresses of the joined sequence are those of the sequence and of
    the new interval. *)
Lemma join_contains (S : interval_set) :
  forall lo up a,
    lo <= up -> separated S ->
    set_contains (join lo up S) a = set_contains S a || contains (lo, up) a.
Proof.
  induction S as [|[l u] S IH]; intros lo up a Hlu Hsep.
  - simpl. now rewrite orb_false_r.
  - apply separated_cons in Hsep as (Hne & Hgap & Hsep).
    cbn [join].
    destruct (up + 1 <? l) eqn:E1.
    + rewrite !set_contains_cons. apply orb_comm.
    + apply Z.ltb_ge in E1.
      destruct (u + 1 <? lo) eqn:E2.
      * rewrite !set_contains_cons, IH by assumption.
        now rewrite orb_assoc.
      * apply Z.ltb_ge in E2.
        rewrite IH by (try assumption; lia).
        rewrite set_contains_cons.
        destruct (set_contains S a); [now rewrite !orb_true_r|].
        rewrite orb_false_r, !orb_false_l.
        apply eq_true_iff_eq.
        rewrite orb_true_iff, !contains_iff. unfold lower, upper. simpl.
        lia.
Qed.

Lemma add_contains (i : interval) (S : interval_set) (a : Z) :
  separated S ->
  set_contains (add i S) a = set_contains S a || contains i a.
Proof.
  intros Hsep. unfold add. destruct (is_empty i) eqn:E.
  - unfold is_empty in E. apply Z.ltb_lt in E.
    replace (contains i a) with false; [now rewrite orb_false_r|].
    symmetry. apply not_true_iff_false. rewrite contains_iff. lia.
  - unfold is_empty in E. apply Z.ltb_ge in E.
    destruct i as [lo up]. now apply join_contains.
Qed.

Lemma empty_iff (S : interval_set) : empty S = true <-> S = [].
Proof. destruct S; simpl; split; congruence. Qed.

End ICLFacts.

(** ** Draining *)

Lemma Perform_nothing_pending (s : Impl) :
  nothing_pending s -> PerformRequestedCacheInvalidation s = ([], Ok tt s).
Proof.
  intros [Hflag Hranges].
  unfold PerformRequestedCacheInvalidation, bind, gets. simpl.
  now rewrite Hflag, Hranges.
Qed.

Lemma Perform_entire (s : Impl) :
  invalidate_entire_cache s = true ->
  PerformRequestedCacheInvalidation s = (clear_events, Ok tt (cleared s)).
Proof.
  intros Hflag.
  unfold PerformRequestedCacheInvalidation, bind, gets. simpl.
  now rewrite Hflag.
Qed.

Lemma Perform_ranges (s : Impl) :
  invalidate_entire_cache s = false ->
  invalid_cache_ranges s <> [] ->
  PerformRequestedCacheInvalidation s
  = (range_events s, Ok tt (range_invalidated s)).
Proof.
  intros Hflag Hranges.
  unfold PerformRequestedCacheInvalidation, bind, gets. simpl.
  assert (Hempty : ICL.empty (invalid_cache_ranges s) = false)
    by (destruct (invalid_cache_ranges s); [congruence|reflexivity]).
  now rewrite Hflag, Hempty.
Qed.

(** The drain always returns, leaves nothing pending and does not touch
    [is_executing]. *)
Lemma Perform_returns (s : Impl) :
  exists s',
    outcome (PerformRequestedCacheInvalidation s) = Ok tt s'
    /\ nothing_pending s'
    /\ is_executing s' = is_executing s
    /\ (invalidate_entire_cache s = true ->
        EmitX64.block_descriptors (emitter s') = ∅)
    /\ (invalidate_entire_cache s = false ->
        emitter s'
        = EmitX64.InvalidateCacheRanges (invalid_cache_ranges s) (emitter s)).
Proof.
  destruct (invalidate_entire_cache s) eqn:Hflag.
  - exists (cleared s). rewrite Perform_entire by exact Hflag.
    repeat split; try reflexivity. discriminate.
  - destruct (invalid_cache_ranges s) eqn:Hranges.
    + exists s. rewrite Perform_nothing_pending by (split; assumption).
      repeat split; try assumption; try discriminate.
      intros _. destruct (emitter s) as [m]. unfold EmitX64.InvalidateCacheRanges.
      simpl. f_equal. symmetry. apply map_filter_id. intros; reflexivity.
    + exists (range_invalidated s).
      rewrite Perform_ranges by (try assumption; congruence).
      repeat split; try reflexivity; try discriminate.
      intros _. simpl. now rewrite Hranges.
Qed.

(** C10: with nothing pending (flag false, set empty) the drain returns at
    once: no event is recorded, so the return stack buffer is not reset and
    neither clear nor range invalidation is called, and the coordinator is
    unchanged. *)
Theorem C10_drain_with_nothing_pending :
  forall s : Impl,
    invalidate_entire_cache s = false ->
    invalid_cache_ranges s = [] ->
    PerformRequestedCacheInvalidation s = ([], Ok tt s).
Proof.
  intros s Hflag Hranges. apply Perform_nothing_pending. now split.
Qed.

Lemma C10_drain_with_nothing_pending_witness :
  invalidate_entire_cache sample_executing = false
  /\ invalid_cache_ranges sample_executing = []
  /\ PerformRequestedCacheInvalidation sample_executing
     = ([], Ok tt sample_executing).
Proof.
  split; [reflexivity|]. split; [reflexivity|].
  apply (C10_drain_with_nothing_pending sample_executing); reflexivity.
Defined.

(** ** Clearing the cache *)

Lemma ClearCache_idle (s : Impl) :
  is_executing s = false ->
  ClearCache s = (EvInvalidateEntireCache true :: clear_events, Ok tt (cleared s)).
Proof.
  intros Hidle.
  unfold ClearCache, RequestCacheInvalidation, bind, gets,
    write_invalidate_entire_cache, step. simpl.
  rewrite Hidle. rewrite Perform_entire by reflexivity. reflexivity.
Qed.

Lemma cleared_idempotent (s : Impl) : cleared (cleared s) = cleared s.
Proof. reflexivity. Qed.

(** C7: two [ClearCache] calls in a row, while idle, leave the coordinator
    in the state one call leaves it in: the block table is empty, so every
    lookup misses, and the flag and the invalidation set are false and
    empty. *)
Theorem C7_clear_cache_twice :
  forall s : Impl,
    is_executing s = false ->
    outcome (ClearCache s) = Ok tt (cleared s)
    /\ outcome ((ClearCache ;; ClearCache) s) = Ok tt (cleared s)
    /\ (forall key, EmitX64.GetBasicBlock (emitter (cleared s)) key = None)
    /\ invalidate_entire_cache (cleared s) = false
    /\ invalid_cache_ranges (cleared s) = [].
Proof.
  intros s Hidle. repeat split.
  - now rewrite ClearCache_idle.
  - unfold bind. rewrite ClearCache_idle by exact Hidle.
    rewrite ClearCache_idle by exact Hidle. reflexivity.
Qed.

Lemma C7_clear_cache_twice_witness :
  is_executing sample_idle = false
  /\ outcome ((ClearCache ;; ClearCache) sample_idle)
     = Ok tt (cleared sample_idle).
Proof.
  split; [reflexivity|].
  apply (C7_clear_cache_twice sample_idle). reflexivity.
Defined.

(** ** The lookup callback *)

Lemma GetCurrentBlock_hit {P : Pipeline} (s : Impl)
      (b : EmitX64.BlockDescriptor) :
  let key := GetUniqueHash (jit_state s) in
  EmitX64.GetBasicBlock (emitter s) key = Some b ->
  GetCurrentBlock s = ([EvGetBasicBlock key], Ok (EmitX64.entrypoint b) s).
Proof.
  intros key Hhit. unfold GetCurrentBlock, bind, gets, note. simpl.
  fold key. now rewrite Hhit.
Qed.

Lemma GetCurrentBlock_miss {P : Pipeline} (s : Impl) :
  let key := GetUniqueHash (jit_state s) in
  let space := BlockOfCode.SpaceRemaining (block_of_code s) in
  let low := space <? MINIMUM_REMAINING_CODESIZE in
  let ir := DeadCodeElimination (Translate key (MemoryReadCode (conf s))) in
  let s1 := if low then cleared s else s in
  EmitX64.GetBasicBlock (emitter s) key = None ->
  GetCurrentBlock s
  = ([EvGetBasicBlock key; EvSpaceRemaining space]
       ++ (if low then EvInvalidateEntireCache true :: clear_events else [])
       ++ [EvTranslate key; EvDeadCodeElimination; EvVerificationPass]
       ++ (if VerificationPass ir then [EvEmit (Location ir)] else []),
     if VerificationPass ir
     then Ok (EmitX64.entrypoint (new_descriptor ir s1)) (emitted ir s1)
     else Abort).
Proof.
  intros key space low ir s1 Hmiss. unfold GetCurrentBlock.
  unfold bind at 1. unfold gets at 1. fold key.
  unfold bind at 1. unfold note at 1.
  unfold bind at 1. unfold gets at 1. rewrite Hmiss.
  unfold bind at 1. unfold gets at 1. fold space.
  unfold bind at 1. unfold note at 1.
  unfold bind at 1. subst s1. fold low.
  destruct low eqn:Hlow.
  - unfold bind at 1. unfold write_invalidate_entire_cache at 1, step at 1.
    rewrite Perform_entire by reflexivity.
    unfold bind, gets, note, ASSERT, Emit, ret. simpl.
    fold key. fold ir. destruct (VerificationPass ir); reflexivity.
  - unfold bind, gets, note, ASSERT, Emit, ret. simpl.
    fold key. fold ir. destruct (VerificationPass ir); reflexivity.
Qed.

(** C3: the lookup callback.  On a hit it returns the entry point of the
    block found, having only asked the emitter for it: no capacity check, no
    translation, coordinator unchanged.  On a miss it reads the remaining
    capacity; below [MINIMUM_REMAINING_CODESIZE] it first clears the whole
    cache; then it translates the current location, runs dead-code
    elimination, then the verification pass (fatal when it fails), emits the
    block and returns the new entry point, under which the block is then
    registered. *)
Theorem C3_lookup_algorithm :
  forall {P : Pipeline} (s : Impl),
    let key := GetUniqueHash (jit_state s) in
    let space := BlockOfCode.SpaceRemaining (block_of_code s) in
    let low := space <? MINIMUM_REMAINING_CODESIZE in
    let ir := DeadCodeElimination (Translate key (MemoryReadCode (conf s))) in
    let s1 := if low then cleared s else s in
    match EmitX64.GetBasicBlock (emitter s) key with
    | Some b =>
        GetCurrentBlock s = ([EvGetBasicBlock key], Ok (EmitX64.entrypoint b) s)
    | None =>
        trace (GetCurrentBlock s)
        = [EvGetBasicBlock key; EvSpaceRemaining space]
            ++ (if low then EvInvalidateEntireCache true :: clear_events else [])
            ++ [EvTranslate key; EvDeadCodeElimination; EvVerificationPass]
            ++ (if VerificationPass ir then [EvEmit (Location ir)] else [])
        /\ outcome (GetCurrentBlock s)
           = (if VerificationPass ir
              then Ok (EmitX64.entrypoint (new_descriptor ir s1)) (emitted ir s1)
              else Abort)
        /\ EmitX64.GetBasicBlock (emitter (emitted ir s1)) (Location ir)
           = Some (new_descriptor ir s1)
        /\ (low = true ->
            EmitX64.block_descriptors (emitter (emitted ir s1))
            = {[ Location ir := new_descriptor ir s1 ]})
    end.
Proof.
  intros P s key space low ir s1.
  destruct (EmitX64.GetBasicBlock (emitter s) key) as [b|] eqn:Hlookup.
  - now apply GetCurrentBlock_hit.
  - rewrite (GetCurrentBlock_miss s Hlookup). fold key space low ir s1.
    split; [reflexivity|]. split; [reflexivity|]. split.
    + unfold EmitX64.GetBasicBlock, emitted. simpl. apply lookup_insert_eq.
    + intros Hlow. subst s1. rewrite Hlow. unfold emitted. simpl.
      apply insert_empty.
Qed.

(** ** Index checks of the accessors *)

Lemma GetRegister_out_of_range (s : Impl) (index : Z) :
  length (reg (jit_state s)) = NumRegs ->
  31 < index ->
  GetRegister index s = ([], OutOfRange s).
Proof.
  intros Hlen Hindex. unfold GetRegister.
  replace (index =? 31) with false by (symmetry; apply Z.eqb_neq; lia).
  unfold reg_at, bind, gets.
  rewrite array_at_out_of_range by (rewrite Hlen; unfold NumRegs; lia).
  reflexivity.
Qed.

Lemma SetRegister_out_of_range (s : Impl) (index value : Z) :
  length (reg (jit_state s)) = NumRegs ->
  31 < index ->
  SetRegister index value s = ([], OutOfRange s).
Proof.
  intros Hlen Hindex. unfold SetRegister.
  replace (index =? 31) with false by (symmetry; apply Z.eqb_neq; lia).
  unfold reg_at_put, bind, gets.
  rewrite array_at_out_of_range by (rewrite Hlen; unfold NumRegs; lia).
  reflexivity.
Qed.

(** Below [2^63] the doubled index does not wrap, and [at] rejects it. *)
Lemma GetVector_out_of_range (s : Impl) (index : Z) :
  length (vec (jit_state s)) = NumVecWords ->
  32 <= index < 2 ^ 63 ->
  GetVector index s = ([], OutOfRange s).
Proof.
  intros Hlen Hindex. unfold GetVector.
  rewrite (wrap64_small (index * 2))
    by (unfold is_u64; rewrite u64_modulus_eq; lia).
  unfold bind at 1. unfold vec_at at 1, bind, gets.
  rewrite array_at_out_of_range by (rewrite Hlen; unfold NumVecWords; lia).
  reflexivity.
Qed.

Lemma SetVector_out_of_range (s : Impl) (index : Z) (value : Vector) :
  length (vec (jit_state s)) = NumVecWords ->
  32 <= index < 2 ^ 63 ->
  SetVector index value s = ([], OutOfRange s).
Proof.
  intros Hlen Hindex. unfold SetVector.
  rewrite (wrap64_small (index * 2))
    by (unfold is_u64; rewrite u64_modulus_eq; lia).
  unfold bind at 1. unfold vec_at_put at 1, bind, gets.
  rewrite array_at_out_of_range by (rewrite Hlen; unfold NumVecWords; lia).
  reflexivity.
Qed.

(** From [2^63] on the doubled index wraps: the accessors see the index
    reduced by [2^63]. *)
Lemma vector_index_wraps (s : Impl) (index : Z) (value : Vector) :
  GetVector (index + 2 ^ 63) s = GetVector index s
  /\ SetVector (index + 2 ^ 63) value s = SetVector index value s.
Proof.
  assert (H0 : wrap64 ((index + 2 ^ 63) * 2) = wrap64 (index * 2)).
  { unfold wrap64. rewrite u64_modulus_eq.
    replace ((index + 2 ^ 63) * 2) with (index * 2 + 1 * 18446744073709551616)
      by lia.
    apply Z_mod_plus_full. }
  assert (H1 : wrap64 ((index + 2 ^ 63) * 2 + 1) = wrap64 (index * 2 + 1)).
  { unfold wrap64. rewrite u64_modulus_eq.
    replace ((index + 2 ^ 63) * 2 + 1)
      with (index * 2 + 1 + 1 * 18446744073709551616) by lia.
    apply Z_mod_plus_full. }
  unfold GetVector, SetVector. now rewrite H0, H1.
Qed.

(** C6, evaluated at vector index [2^63]: the index is outside the valid
    range [0..31], yet [GetVector] returns vector register 0 and [SetVector]
    overwrites it, with no out-of-range error; the index [32] is rejected. *)
Theorem C6_vector_index_not_rejected :
  GetVector (2 ^ 63) sample_idle = ([], Ok (mkVector 0 0) sample_idle)
  /\ SetVector (2 ^ 63) (mkVector 5 6) sample_idle
     = SetVector 0 (mkVector 5 6) sample_idle
  /\ (SetVector (2 ^ 63) (mkVector 5 6) ;; GetVector 0) sample_idle
     = (SetVector 0 (mkVector 5 6) ;; ret (mkVector 5 6)) sample_idle
  /\ GetVector 32 sample_idle = ([], OutOfRange sample_idle).
Proof.
  repeat split; vm_compute; reflexivity.
Qed.

(** ** The interval of [InvalidateCacheRange] *)

Lemma InvalidateCacheRange_unfold (s : Impl) (start_address length : Z) :
  let i := invalidated_interval start_address length in
  let s1 := with_invalid_cache_ranges (ICL.add i (invalid_cache_ranges s)) s in
  InvalidateCacheRange start_address length s
  = (EvRangesAdd i :: trace (RequestCacheInvalidation s1),
     outcome (RequestCacheInvalidation s1)).
Proof.
  intros i s1. unfold InvalidateCacheRange, bind, step. fold i. fold s1.
  destruct (RequestCacheInvalidation s1) as [t o]. reflexivity.
Qed.

Lemma Request_while_executing (s : Impl) :
  is_executing s = true ->
  RequestCacheInvalidation s
  = ([EvHaltRequested true],
     Ok tt (with_jit_state (set_halt_requested true (jit_state s)) s)).
Proof.
  intros Hexec. unfold RequestCacheInvalidation, bind, gets. simpl.
  now rewrite Hexec.
Qed.

Lemma Request_while_idle (s : Impl) :
  is_executing s = false ->
  RequestCacheInvalidation s = PerformRequestedCacheInvalidation s.
Proof.
  intros Hidle. unfold RequestCacheInvalidation, bind, gets. simpl.
  rewrite Hidle. now destruct (PerformRequestedCacheInvalidation s).
Qed.





(** ** Callbacks of the generated code *)

Lemma Perform_eq (s : Impl) :
  PerformRequestedCacheInvalidation s = (drain_events s, Ok tt (drained s)).
Proof.
  unfold drain_events, drained.
  destruct (invalidate_entire_cache s) eqn:Hflag.
  - now rewrite Perform_entire.
  - destruct (invalid_cache_ranges s) eqn:Hranges.
    + now rewrite Perform_nothing_pending.
    + rewrite Perform_ranges; [reflexivity|assumption|congruence].
Qed.

Lemma drained_spec (s : Impl) :
  nothing_pending (drained s)
  /\ is_executing (drained s) = is_executing s
  /\ (invalidate_entire_cache s = true ->
      EmitX64.block_descriptors (emitter (drained s)) = ∅)
  /\ (invalidate_entire_cache s = false ->
      emitter (drained s)
      = EmitX64.InvalidateCacheRanges (invalid_cache_ranges s) (emitter s)).
Proof.
  destruct (Perform_returns s) as (s' & Hout & H).
  unfold drained. now rewrite Hout.
Qed.

(** [Run] from an idle coordinator, by the way [RunCode] ends. *)
Lemma Run_idle (body : Comp unit) (s : Impl) :
  is_executing s = false ->
  Run body s
  = match body (entered s) with
    | (t, Ok _ s2) =>
        (EvIsExecuting true :: EvHaltRequested false :: EvRunCode
           :: t ++ EvRunCodeReturn :: drain_events s2 ++ [EvIsExecuting false],
         Ok tt (with_is_executing false (drained s2)))
    | (t, OutOfRange s2) =>
        (EvIsExecuting true :: EvHaltRequested false :: EvRunCode
           :: t ++ [EvIsExecuting false],
         OutOfRange (with_is_executing false s2))
    | (t, Abort) =>
        (EvIsExecuting true :: EvHaltRequested false :: EvRunCode :: t, Abort)
    end.
Proof.
  intros Hidle. unfold Run.
  unfold bind at 1. unfold gets at 1.
  unfold bind at 1. unfold ASSERT at 1. rewrite Hidle. simpl negb. cbv iota.
  unfold bind at 1. unfold write_is_executing at 1, step at 1.
  unfold SCOPE_EXIT.
  unfold bind at 1. unfold write_halt_requested at 1, step at 1.
  unfold bind at 1. unfold note at 1.
  unfold bind at 1.
  change (with_jit_state
            (set_halt_requested false (jit_state (with_is_executing true s)))
            (with_is_executing true s)) with (entered s).
  destruct (body (entered s)) as [t [[] s2|s2|]].
  - unfold bind at 1. unfold note at 1. rewrite Perform_eq.
    unfold write_is_executing, step. simpl.
    rewrite <- !app_assoc. reflexivity.
  - unfold write_is_executing, step. simpl. reflexivity.
  - reflexivity.
Qed.

Lemma pending_kept_refl (s : Impl) : pending_kept s s.
Proof. split; auto. Qed.

Lemma pending_kept_trans (s1 s2 s3 : Impl) :
  pending_kept s1 s2 -> pending_kept s2 s3 -> pending_kept s1 s3.
Proof. intros [H1 H2] [H3 H4]. split; auto. Qed.

Lemma requested_kept (c : Call) (s1 s2 : Impl) :
  requested c s1 -> pending_kept s1 s2 -> requested c s2.
Proof. intros Hreq [Hflag Hranges]. destruct c; simpl in *; auto. Qed.

Lemma ClearCache_executing (s : Impl) :
  is_executing s = true ->
  ClearCache s
  = ([EvInvalidateEntireCache true; EvHaltRequested true],
     Ok tt (with_jit_state (set_halt_requested true (jit_state s))
              (with_invalidate_entire_cache true s))).
Proof.
  intros Hexec. unfold ClearCache.
  unfold bind at 1. unfold write_invalidate_entire_cache, step.
  now rewrite Request_while_executing.
Qed.

Lemma InvalidateCacheRange_executing (s : Impl) (start_address length : Z) :
  is_executing s = true ->
  let i := invalidated_interval start_address length in
  InvalidateCacheRange start_address length s
  = ([EvRangesAdd i; EvHaltRequested true],
     Ok tt (with_jit_state (set_halt_requested true (jit_state s))
              (with_invalid_cache_ranges
                 (ICL.add i (invalid_cache_ranges s)) s))).
Proof.
  intros Hexec i. rewrite InvalidateCacheRange_unfold. fold i.
  now rewrite Request_while_executing.
Qed.

Section Callbacks.

Context {P : Pipeline}.

(** A callback that returns leaves the coordinator executing; when no
    capacity check fell below the low-water mark it records no drain event
    and keeps what is pending, its own request included. *)
Lemma call_while_executing (c : Call) (s : Impl) :
  is_executing s = true ->
  match call c s with
  | (t, Ok _ s') =>
      is_executing s' = true
      /\ (ICL.separated (invalid_cache_ranges s) ->
          ICL.separated (invalid_cache_ranges s')
          /\ (existsb is_low_space_event t = false ->
              existsb is_drain_event t = false
              /\ pending_kept s s' /\ requested c s'))
  | (t, OutOfRange s') => is_executing s' = true
  | (t, Abort) => True
  end.
Proof.
  intros Hexec. destruct c; simpl call.
  - (* the lookup callback *)
    unfold bind.
    destruct (EmitX64.GetBasicBlock (emitter s) (GetUniqueHash (jit_state s)))
      as [b|] eqn:Hlookup.
    + rewrite (GetCurrentBlock_hit s b Hlookup). simpl.
      split; [exact Hexec|]. intros Hsep. split; [exact Hsep|].
      intros _. split; [reflexivity|]. split; [split; auto|exact I].
    + rewrite (GetCurrentBlock_miss s Hlookup).
      destruct (VerificationPass _); [|exact I].
      destruct (BlockOfCode.SpaceRemaining (block_of_code s)
                <? MINIMUM_REMAINING_CODESIZE) eqn:Hlow.
      * unfold ret. split; [exact Hexec|]. intros _. split; [exact I|].
        rewrite app_nil_r. cbn [app existsb is_low_space_event].
        rewrite Hlow. discriminate.
      * unfold ret. split; [exact Hexec|]. intros Hsep. split; [exact Hsep|].
        intros _. split; [reflexivity|].
        split; [split; auto|exact I].
  - (* Run *)
    now rewrite Run_while_executing.
  - (* ClearCache *)
    rewrite ClearCache_executing by exact Hexec.
    split; [exact Hexec|]. intros Hsep. split; [exact Hsep|].
    intros _. split; [reflexivity|]. split; [|reflexivity].
    split; auto.
  - (* InvalidateCacheRange *)
    rewrite InvalidateCacheRange_executing by exact Hexec.
    split; [exact Hexec|]. intros Hsep.
    split; [now apply ICLFacts.add_separated|].
    intros _. split; [reflexivity|]. split.
    + split; [auto|]. intros a Ha.
      cbn [invalid_cache_ranges with_jit_state with_invalid_cache_ranges].
      rewrite ICLFacts.add_contains by exact Hsep. now rewrite Ha.
    + intros a Ha.
      cbn [invalid_cache_ranges with_jit_state with_invalid_cache_ranges].
      rewrite ICLFacts.add_contains by exact Hsep. rewrite Ha.
      apply orb_true_r.
  - (* Reset *)
    now rewrite Reset_while_executing.
  - (* HaltExecution *)
    unfold HaltExecution, write_halt_requested, step.
    split; [exact Hexec|]. intros Hsep. split; [exact Hsep|].
    intros _. split; [reflexivity|]. split; [split; auto|exact I].
  - (* SetSP *)
    unfold SetSP, modify.
    split; [exact Hexec|]. intros Hsep. split; [exact Hsep|].
    intros _. split; [reflexivity|]. split; [split; auto|exact I].
  - (* SetPC *)
    unfold SetPC, modify.
    split; [exact Hexec|]. intros Hsep. split; [exact Hsep|].
    intros _. split; [reflexivity|]. split; [split; auto|exact I].
  - (* SetRegister *)
    unfold SetRegister. destruct (index =? 31).
    + unfold SetSP, modify.
      split; [exact Hexec|]. intros Hsep. split; [exact Hsep|].
      intros _. split; [reflexivity|]. split; [split; auto|exact I].
    + unfold reg_at_put, bind, gets.
      destruct (array_at (reg (jit_state s)) index); [|exact Hexec].
      unfold modify.
      split; [exact Hexec|]. intros Hsep. split; [exact Hsep|].
      intros _. split; [reflexivity|]. split; [split; auto|exact I].
  - (* SetVector *)
    unfold SetVector. unfold bind at 1. unfold vec_at_put at 1, bind, gets.
    destruct (array_at (vec (jit_state s)) (wrap64 (index * 2)));
      [|exact Hexec].
    unfold modify. unfold vec_at_put at 1, bind, gets. cbn [jit_state with_jit_state vec set_vec].
    destruct (array_at _ (wrap64 (index * 2 + 1))); [|exact Hexec].
    unfold modify.
    split; [exact Hexec|]. intros Hsep. split; [exact Hsep|].
    intros _. split; [reflexivity|]. split; [split; auto|exact I].
Qed.

End Callbacks.

Lemma RunCode_while_executing {P : Pipeline} (g : list Call) :
  forall s : Impl,
    is_executing s = true ->
    match RunCode g s with
    | (t, Ok _ s') =>
        is_executing s' = true
        /\ (ICL.separated (invalid_cache_ranges s) ->
            ICL.separated (invalid_cache_ranges s')
            /\ (existsb is_low_space_event t = false ->
                existsb is_drain_event t = false
                /\ pending_kept s s'
                /\ Forall (fun c => requested c s') g))
    | (t, OutOfRange s') => is_executing s' = true
    | (t, Abort) => True
    end.
Proof.
  induction g as [|c g IH]; intros s Hexec.
  - simpl. unfold ret. split; [exact Hexec|]. intros Hsep.
    split; [exact Hsep|]. intros _. split; [reflexivity|].
    split; [apply pending_kept_refl|constructor].
  - cbn [RunCode]. unfold bind.
    pose proof (call_while_executing c s Hexec) as Hcall.
    destruct (call c s) as [t1 [[] s1|s1|]]; [|exact Hcall|exact I].
    destruct Hcall as [Hexec1 Hcall].
    specialize (IH s1 Hexec1).
    destruct (RunCode g s1) as [t2 [[] s2|s2|]]; [|exact IH|exact I].
    destruct IH as [Hexec2 IH]. split; [exact Hexec2|].
    intros Hsep. destruct (Hcall Hsep) as [Hsep1 Hcall1].
    destruct (IH Hsep1) as [Hsep2 IH2]. split; [exact Hsep2|].
    rewrite !existsb_app. intros Hlow.
    apply orb_false_iff in Hlow as [Hlow1 Hlow2].
    destruct (Hcall1 Hlow1) as (Hd1 & Hk1 & Hr1).
    destruct (IH2 Hlow2) as (Hd2 & Hk2 & Hr2).
    split; [now rewrite Hd1, Hd2|].
    split; [now apply pending_kept_trans with s1|].
    constructor; [now apply requested_kept with s1|exact Hr2].
Qed.

(** ** Blocks removed by a range invalidation *)

Lemma intersects_witness (i j : ICL.interval) :
  ICL.intersects i j = true ->
  exists a, ICL.contains i a = true /\ ICL.contains j a = true.
Proof.
  unfold ICL.intersects, ICL.is_empty.
  rewrite !andb_true_iff, !negb_true_iff, !Z.ltb_ge, !Z.leb_le.
  intros [[[Hi Hj] Hij] Hji].
  exists (Z.max (ICL.lower i) (ICL.lower j)).
  rewrite !ICLFacts.contains_iff. lia.
Qed.

Lemma set_intersects_of_contains (S : ICL.interval_set) (j : ICL.interval) a :
  ICL.set_contains S a = true -> ICL.contains j a = true ->
  ICL.set_intersects S j = true.
Proof.
  unfold ICL.set_contains, ICL.set_intersects. rewrite !existsb_exists.
  intros (i & Hin & Hi) Hj. exists i. split; [exact Hin|].
  apply ICLFacts.contains_iff in Hi. apply ICLFacts.contains_iff in Hj.
  unfold ICL.intersects, ICL.is_empty.
  rewrite !andb_true_iff, !negb_true_iff, !Z.ltb_ge, !Z.leb_le. lia.
Qed.

Lemma no_block_after_invalidate
      (R : ICL.interval_set) (i : ICL.interval) (e : EmitX64.t) (s : Impl) :
  (forall a, ICL.contains i a = true -> ICL.set_contains R a = true) ->
  emitter s = EmitX64.InvalidateCacheRanges R e ->
  no_block_in i s.
Proof.
  intros Hcover Hem key d Hlookup.
  assert (Hstale : EmitX64.stale R d = false).
  { rewrite Hem in Hlookup.
    unfold EmitX64.GetBasicBlock, EmitX64.InvalidateCacheRanges in Hlookup.
    simpl in Hlookup. apply map_lookup_filter_Some in Hlookup.
    now destruct Hlookup. }
  destruct (ICL.intersects i (EmitX64.range d)) eqn:E; [|reflexivity].
  apply intersects_witness in E as (a & Hia & Hda).
  unfold EmitX64.stale in Hstale.
  rewrite (set_intersects_of_contains R (EmitX64.range d) a) in Hstale;
    [discriminate|now apply Hcover|exact Hda].
Qed.

Lemma no_block_in_empty (i : ICL.interval) (s : Impl) :
  EmitX64.block_descriptors (emitter s) = ∅ -> no_block_in i s.
Proof.
  intros Hempty key d. unfold EmitX64.GetBasicBlock. rewrite Hempty.
  now rewrite lookup_empty.
Qed.

(** After a drain no block is left in an interval that was pending, by
    either branch. *)
Lemma no_block_after_drain (i : ICL.interval) (s : Impl) :
  invalidate_entire_cache s = true
  \/ (forall a, ICL.contains i a = true ->
                ICL.set_contains (invalid_cache_ranges s) a = true) ->
  no_block_in i (drained s).
Proof.
  intros Hpending.
  destruct (drained_spec s) as (_ & _ & Hentire & Hranges).
  destruct (invalidate_entire_cache s) eqn:Hflag.
  - apply no_block_in_empty. now apply Hentire.
  - destruct Hpending as [|Hcover]; [discriminate|].
    apply (no_block_after_invalidate (invalid_cache_ranges s) i (emitter s));
      [exact Hcover|now apply Hranges].
Qed.

(** ** The exit of [Run] *)

(** C2, as the code has it: when the generated code returns, [Run] drains
    what is pending while the coordinator is still marked executing, and the
    scope-exit handler marks it idle last; when an exception leaves
    [RunCode] the handler still marks the coordinator idle and nothing is
    drained; a failed assertion ends the process. *)
Theorem C2_run_drains_then_marks_idle :
  forall {P : Pipeline} (s : Impl) (generated : list Call),
    is_executing s = false ->
    match RunCode generated (entered s) with
    | (t_run, Ok _ s_mid) =>
        Run (RunCode generated) s
        = (EvIsExecuting true :: EvHaltRequested false :: EvRunCode
             :: t_run ++ EvRunCodeReturn
             :: drain_events s_mid ++ [EvIsExecuting false],
           Ok tt (with_is_executing false (drained s_mid)))
        /\ PerformRequestedCacheInvalidation s_mid
           = (drain_events s_mid, Ok tt (drained s_mid))
        /\ is_executing s_mid = true
        /\ is_executing (drained s_mid) = true
        /\ nothing_pending (with_is_executing false (drained s_mid))
    | (t_run, OutOfRange s_mid) =>
        Run (RunCode generated) s
        = (EvIsExecuting true :: EvHaltRequested false :: EvRunCode
             :: t_run ++ [EvIsExecuting false],
           OutOfRange (with_is_executing false s_mid))
    | (t_run, Abort) =>
        Run (RunCode generated) s
        = (EvIsExecuting true :: EvHaltRequested false :: EvRunCode :: t_run,
           Abort)
    end.
Proof.
  intros P s generated Hidle.
  pose proof (Run_idle (RunCode generated) s Hidle) as HRun.
  pose proof (RunCode_while_executing generated (entered s) eq_refl) as Hinv.
  destruct (RunCode generated (entered s)) as [t_run [[] s_mid|s_mid|]];
    try exact HRun.
  destruct Hinv as [Hexec _].
  destruct (drained_spec s_mid) as (Hnone & Hsame & _).
  split; [exact HRun|]. split; [apply Perform_eq|].
  split; [exact Hexec|]. split; [now rewrite Hsame|exact Hnone].
Qed.

Lemma C2_run_drains_then_marks_idle_witness :
  is_executing sample_idle = false
  /\ Run (RunCode [CallClearCache]) sample_idle
     = ([EvIsExecuting true; EvHaltRequested false; EvRunCode;
         EvInvalidateEntireCache true; EvHaltRequested true; EvRunCodeReturn;
         EvResetRSB; EvBlockOfCodeClearCache; EvEmitterClearCache;
         EvRangesClear; EvInvalidateEntireCache false; EvIsExecuting false],
        Ok tt (with_is_executing false
                 (cleared (with_jit_state
                             (set_halt_requested true
                                (jit_state (entered sample_idle)))
                             (entered sample_idle))))).
Proof.
  split; [reflexivity|].
  exact (proj1 (C2_run_drains_then_marks_idle sample_idle [CallClearCache]
                  eq_refl)).
Defined.

(** C2, as stated, fails: in a [Run] whose generated code requested a full
    clear, the events of the drain are recorded before [is_executing] is
    written [false]. *)
Lemma C2_idle_is_marked_after_the_drain :
  trace (Run (RunCode [CallClearCache]) sample_idle)
  = [EvIsExecuting true; EvHaltRequested false; EvRunCode;
     EvInvalidateEntireCache true; EvHaltRequested true; EvRunCodeReturn;
     EvResetRSB; EvBlockOfCodeClearCache; EvEmitterClearCache; EvRangesClear;
     EvInvalidateEntireCache false; EvIsExecuting false]
  /\ idle_before_drain (trace (Run (RunCode [CallClearCache]) sample_idle))
     = false.
Proof.
  split; vm_compute; reflexivity.
Qed.

(** ** Requests while executing and while idle *)

Lemma InvalidateCacheRange_idle (s : Impl) (start_address length : Z) :
  is_executing s = false ->
  ICL.separated (invalid_cache_ranges s) ->
  let i := invalidated_interval start_address length in
  let s1 := with_invalid_cache_ranges (ICL.add i (invalid_cache_ranges s)) s in
  InvalidateCacheRange start_address length s
  = (EvRangesAdd i :: drain_events s1, Ok tt (drained s1))
  /\ nothing_pending (drained s1)
  /\ no_block_in i (drained s1).
Proof.
  intros Hidle Hsep i s1. split; [|split].
  - rewrite InvalidateCacheRange_unfold. fold i. fold s1.
    rewrite Request_while_idle by exact Hidle. now rewrite Perform_eq.
  - apply drained_spec.
  - apply no_block_after_drain. right. intros a Ha. subst s1.
    cbn [invalid_cache_ranges with_invalid_cache_ranges].
    rewrite ICLFacts.add_contains by exact Hsep. rewrite Ha.
    apply orb_true_r.
Qed.

(** C1, as stated, fails on "performed when [Run] next returns": with a
    code buffer near the low-water mark, the range recorded by the request is
    pending and its block still cached when the request has returned; the
    next lookup of the same execution misses, finds the capacity low and
    drains at once, by a full clear, while the coordinator is executing; when
    [RunCode] returns nothing is left to perform. *)
Lemma C1_drained_before_run_returns :
  pending_after (RunCode callbacks_until_request) (entered sample_tight)
  = [(4096, 4099)]
  /\ trace (Run (RunCode callbacks_with_lookup) sample_tight)
     = [EvIsExecuting true; EvHaltRequested false; EvRunCode;
        EvGetBasicBlock 4096; EvSpaceRemaining 1048639;
        EvTranslate 4096; EvDeadCodeElimination; EvVerificationPass;
        EvEmit 4096; EvRangesAdd (4096, 4099); EvHaltRequested true;
        EvGetBasicBlock 8192; EvSpaceRemaining 1048575;
        EvInvalidateEntireCache true; EvResetRSB; EvBlockOfCodeClearCache;
        EvEmitterClearCache; EvRangesClear; EvInvalidateEntireCache false;
        EvTranslate 8192; EvDeadCodeElimination; EvVerificationPass;
        EvEmit 8192; EvRunCodeReturn; EvIsExecuting false]
  /\ deferred_until_return
       (trace (Run (RunCode callbacks_with_lookup) sample_tight)) = false.
Proof.
  repeat split; vm_compute; reflexivity.
Qed.

(** * Further properties of the coordinator *)

(** ** Reads after writes of the general registers *)

Lemma array_at_Some (l : list Z) (index : Z) :
  0 <= index < Z.of_nat (length l) -> exists v, array_at l index = Some v.
Proof.
  intros H. unfold array_at.
  replace (0 <=? index) with true by (symmetry; apply Z.leb_le; lia).
  replace (index <? Z.of_nat (length l)) with true
    by (symmetry; apply Z.ltb_lt; lia).
  simpl. apply lookup_lt_is_Some_2. lia.
Qed.

Lemma array_at_insert_eq (l : list Z) (index v : Z) :
  0 <= index < Z.of_nat (length l) ->
  array_at (<[Z.to_nat index := v]> l) index = Some v.
Proof.
  intros H. unfold array_at. rewrite length_insert.
  replace (0 <=? index) with true by (symmetry; apply Z.leb_le; lia).
  replace (index <? Z.of_nat (length l)) with true
    by (symmetry; apply Z.ltb_lt; lia).
  simpl. apply list_lookup_insert_eq. lia.
Qed.

Lemma array_at_insert_ne (l : list Z) (i j v : Z) :
  0 <= i -> i <> j ->
  array_at (<[Z.to_nat i := v]> l) j = array_at l j.
Proof.
  intros Hi Hne. unfold array_at. rewrite length_insert.
  destruct ((0 <=? j) && (j <? Z.of_nat (length l))) eqn:E; [|reflexivity].
  apply andb_true_iff in E as [Hj _]. apply Z.leb_le in Hj.
  apply list_lookup_insert_ne. lia.
Qed.

(** Lines 99-109: a general register written through [SetRegister] reads
    back through [GetRegister]; every other index, 31 included, reads as
    before, and nothing but the register array changes. *)
Theorem SetRegister_then_GetRegister :
  forall (s : Impl) (index value : Z),
    0 <= index < 31 ->
    length (reg (jit_state s)) = NumRegs ->
    exists s',
      SetRegister index value s = ([], Ok tt s')
      /\ GetRegister index s' = ([], Ok value s')
      /\ (forall j v, j <> index ->
            GetRegister j s = ([], Ok v s) -> GetRegister j s' = ([], Ok v s'))
      /\ (forall j, j <> index ->
            GetRegister j s = ([], OutOfRange s) ->
            GetRegister j s' = ([], OutOfRange s'))
      /\ sp (jit_state s') = sp (jit_state s)
      /\ pc (jit_state s') = pc (jit_state s)
      /\ vec (jit_state s') = vec (jit_state s)
      /\ only_registers_differ s s'.
Proof.
  intros s index value Hindex Hlen.
  destruct (array_at_Some (reg (jit_state s)) index) as [old Hold];
    [rewrite Hlen; unfold NumRegs; lia|].
  set (s' := with_jit_state
               (set_reg (<[Z.to_nat index := value]> (reg (jit_state s)))
                  (jit_state s)) s).
  assert (Hne31 : (index =? 31) = false) by (apply Z.eqb_neq; lia).
  assert (Hother : forall j, j <> index ->
            GetRegister j s' = match GetRegister j s with
                               | (t, Ok v _) => (t, Ok v s')
                               | (t, OutOfRange _) => (t, OutOfRange s')
                               | (t, Abort) => (t, Abort)
                               end).
  { intros j Hj. unfold GetRegister. destruct (j =? 31); [reflexivity|].
    unfold reg_at, bind, gets.
    change (reg (jit_state s'))
      with (<[Z.to_nat index := value]> (reg (jit_state s))).
    rewrite array_at_insert_ne by lia.
    destruct (array_at (reg (jit_state s)) j); reflexivity. }
  exists s'. split; [|split; [|split; [|split]]].
  - unfold SetRegister. rewrite Hne31. unfold reg_at_put, bind, gets.
    rewrite Hold. reflexivity.
  - unfold GetRegister. rewrite Hne31. unfold reg_at, bind, gets.
    change (reg (jit_state s'))
      with (<[Z.to_nat index := value]> (reg (jit_state s))).
    rewrite array_at_insert_eq by (rewrite Hlen; unfold NumRegs; lia).
    reflexivity.
  - intros j v Hj Hread. rewrite (Hother j Hj), Hread. reflexivity.
  - intros j Hj Hread. rewrite (Hother j Hj), Hread. reflexivity.
  - repeat split.
Qed.

Lemma SetRegister_then_GetRegister_witness :
  0 <= 7 < 31
  /\ length (reg (jit_state sample_idle)) = NumRegs
  /\ exists s',
       SetRegister 7 99 sample_idle = ([], Ok tt s')
       /\ GetRegister 7 s' = ([], Ok 99 s').
Proof.
  assert (H1 : 0 <= 7 < 31) by lia.
  assert (H2 : length (reg (jit_state sample_idle)) = NumRegs) by reflexivity.
  split; [exact H1|]. split; [exact H2|].
  destruct (SetRegister_then_GetRegister sample_idle 7 99 H1 H2)
    as (s' & Hset & Hget & _).
  exists s'. split; [exact Hset|exact Hget].
Defined.

(** Lines 99-109: an index above 31 is rejected by both register accessors,
    and the coordinator is left as it was. *)
Theorem register_index_above_31_rejected :
  forall (s : Impl) (index value : Z),
    31 < index ->
    length (reg (jit_state s)) = NumRegs ->
    GetRegister index s = ([], OutOfRange s)
    /\ SetRegister index value s = ([], OutOfRange s).
Proof.
  intros s index value Hindex Hlen. split.
  - now apply GetRegister_out_of_range.
  - now apply SetRegister_out_of_range.
Qed.

Lemma register_index_above_31_rejected_witness :
  31 < 32
  /\ length (reg (jit_state sample_idle)) = NumRegs
  /\ SetRegister 32 5 sample_idle = ([], OutOfRange sample_idle).
Proof.
  assert (H1 : 31 < 32) by lia.
  assert (H2 : length (reg (jit_state sample_idle)) = NumRegs) by reflexivity.
  split; [exact H1|]. split; [exact H2|].
  exact (proj2 (register_index_above_31_rejected sample_idle 32 5 H1 H2)).
Defined.

(** ** The vector registers *)

(** The two [size_t] indices of lines 112-117, for any [index]. *)
Lemma wrap64_double (index : Z) :
  wrap64 (index * 2) = index mod 2 ^ 63 * 2
  /\ wrap64 (index * 2 + 1) = index mod 2 ^ 63 * 2 + 1.
Proof.
  pose proof (Z.div_mod index (2 ^ 63) ltac:(lia)) as Hdiv.
  pose proof (Z.mod_pos_bound index (2 ^ 63) ltac:(lia)) as Hr.
  unfold wrap64. rewrite u64_modulus_eq. split; symmetry.
  - apply (Z.mod_unique _ _ (index / 2 ^ 63)); lia.
  - apply (Z.mod_unique _ _ (index / 2 ^ 63)); lia.
Qed.

Lemma GetVector_unfold (s : Impl) (index : Z) :
  GetVector index s
  = match array_at (vec (jit_state s)) (index mod 2 ^ 63 * 2),
          array_at (vec (jit_state s)) (index mod 2 ^ 63 * 2 + 1) with
    | Some lo, Some hi => ([], Ok (mkVector lo hi) s)
    | _, _ => ([], OutOfRange s)
    end.
Proof.
  destruct (wrap64_double index) as [H0 H1].
  unfold GetVector. rewrite H0, H1.
  unfold vec_at, bind, gets, ret, throw_out_of_range.
  destruct (array_at (vec (jit_state s)) (index mod 2 ^ 63 * 2));
    [|reflexivity].
  destruct (array_at (vec (jit_state s)) (index mod 2 ^ 63 * 2 + 1));
    reflexivity.
Qed.

(** Lines 111-118: the vector accessors reject an index whose remainder
    modulo [2^63] is 32 or more, before anything is written: the coordinator
    is left as it was, no half of a vector is stored. *)
Theorem vector_index_rejected :
  forall (s : Impl) (index : Z) (value : Vector),
    length (vec (jit_state s)) = NumVecWords ->
    32 <= index mod 2 ^ 63 ->
    GetVector index s = ([], OutOfRange s)
    /\ SetVector index value s = ([], OutOfRange s).
Proof.
  intros s index value Hlen Hindex. split.
  - rewrite GetVector_unfold.
    rewrite (array_at_out_of_range _ (index mod 2 ^ 63 * 2))
      by (rewrite Hlen; unfold NumVecWords; lia).
    reflexivity.
  - destruct (wrap64_double index) as [H0 _].
    unfold SetVector. rewrite H0. unfold bind at 1.
    unfold vec_at_put at 1, bind, gets.
    rewrite array_at_out_of_range by (rewrite Hlen; unfold NumVecWords; lia).
    reflexivity.
Qed.

Lemma vector_index_rejected_witness :
  length (vec (jit_state sample_idle)) = NumVecWords
  /\ 32 <= 40 mod 2 ^ 63
  /\ SetVector 40 (mkVector 1 2) sample_idle = ([], OutOfRange sample_idle).
Proof.
  assert (H1 : length (vec (jit_state sample_idle)) = NumVecWords)
    by reflexivity.
  assert (H2 : 32 <= 40 mod 2 ^ 63) by (vm_compute; discriminate).
  split; [exact H1|]. split; [exact H2|].
  exact (proj2 (vector_index_rejected sample_idle 40 (mkVector 1 2) H1 H2)).
Defined.

(** Lines 111-118: for an index whose remainder modulo [2^63] is below 32,
    [SetVector] stores both halves and [GetVector] reads them back; a vector
    register with another remainder reads as before, and the general
    registers, the stack pointer and the program counter are untouched. *)
Theorem SetVector_then_GetVector :
  forall (s : Impl) (index : Z) (value : Vector),
    length (vec (jit_state s)) = NumVecWords ->
    index mod 2 ^ 63 < 32 ->
    exists s',
      SetVector index value s = ([], Ok tt s')
      /\ GetVector index s' = ([], Ok value s')
      /\ (forall j w, j mod 2 ^ 63 <> index mod 2 ^ 63 ->
            GetVector j s = ([], Ok w s) -> GetVector j s' = ([], Ok w s'))
      /\ reg (jit_state s') = reg (jit_state s)
      /\ sp (jit_state s') = sp (jit_state s)
      /\ pc (jit_state s') = pc (jit_state s)
      /\ only_registers_differ s s'.
Proof.
  intros s index [lo hi] Hlen Hindex.
  pose proof (Z.mod_pos_bound index (2 ^ 63) ltac:(lia)) as Hr.
  set (r := index mod 2 ^ 63) in *.
  set (w := vec (jit_state s)) in *.
  set (w1 := <[Z.to_nat (r * 2) := lo]> w).
  set (w2 := <[Z.to_nat (r * 2 + 1) := hi]> w1).
  set (s1 := with_jit_state (set_vec w1 (jit_state s)) s).
  set (s2 := with_jit_state (set_vec w2 (jit_state s1)) s1).
  assert (Hlen1 : length w1 = NumVecWords)
    by (unfold w1; now rewrite length_insert).
  destruct (array_at_Some w (r * 2)) as [old0 Hold0];
    [rewrite Hlen; unfold NumVecWords; lia|].
  destruct (array_at_Some w1 (r * 2 + 1)) as [old1 Hold1];
    [rewrite Hlen1; unfold NumVecWords; lia|].
  exists s2. split; [|split; [|split]].
  - destruct (wrap64_double index) as [H0 H1].
    unfold SetVector. rewrite H0, H1. fold r. unfold bind at 1.
    unfold vec_at_put at 1, bind, gets. fold w. rewrite Hold0.
    unfold modify. unfold vec_at_put, bind, gets.
    cbn [low high vec jit_state with_jit_state set_vec]. fold w1.
    rewrite Hold1. reflexivity.
  - rewrite GetVector_unfold. fold r. change (vec (jit_state s2)) with w2.
    unfold w2. rewrite array_at_insert_ne by lia.
    unfold w1 at 1. rewrite array_at_insert_eq
      by (fold w; rewrite Hlen; unfold NumVecWords; lia).
    rewrite array_at_insert_eq by (rewrite Hlen1; unfold NumVecWords; lia).
    reflexivity.
  - intros j v Hj Hread. rewrite GetVector_unfold in Hread |- *.
    pose proof (Z.mod_pos_bound j (2 ^ 63) ltac:(lia)) as Hrj.
    change (vec (jit_state s2)) with w2. fold w in Hread.
    unfold w2, w1. rewrite !array_at_insert_ne by lia.
    destruct (array_at w (j mod 2 ^ 63 * 2)); [|discriminate].
    destruct (array_at w (j mod 2 ^ 63 * 2 + 1)); [|discriminate].
    now inversion Hread.
  - repeat split.
Qed.

Lemma SetVector_then_GetVector_witness :
  length (vec (jit_state sample_idle)) = NumVecWords
  /\ 3 mod 2 ^ 63 < 32
  /\ exists s',
       SetVector 3 (mkVector 5 6) sample_idle = ([], Ok tt s')
       /\ GetVector 3 s' = ([], Ok (mkVector 5 6) s').
Proof.
  assert (H1 : length (vec (jit_state sample_idle)) = NumVecWords)
    by reflexivity.
  assert (H2 : 3 mod 2 ^ 63 < 32) by reflexivity.
  split; [exact H1|]. split; [exact H2|].
  destruct (SetVector_then_GetVector sample_idle 3 (mkVector 5 6) H1 H2)
    as (s' & Hset & Hget & _).
  exists s'. split; [exact Hset|exact Hget].
Defined.

(** ** What the register setters leave alone *)

(** Lines 87-118: [SetSP], [SetPC], [SetRegister] and [SetVector] call no
    collaborator and write no flag of the coordinator, whether they return or
    throw: the code buffer, the block table, what is pending,
    [is_executing] and the halt-request flag are as before. *)
Theorem setters_leave_the_cache_alone :
  forall (s : Impl) (index value : Z) (vector : Vector),
    silent_on_cache s (SetSP value s)
    /\ silent_on_cache s (SetPC value s)
    /\ silent_on_cache s (SetRegister index value s)
    /\ silent_on_cache s (SetVector index vector s).
Proof.
  intros s index value vector.
  assert (Hsp : silent_on_cache s (SetSP value s))
    by (unfold SetSP, modify; simpl; repeat split).
  split; [exact Hsp|]. split; [|split].
  - unfold SetPC, modify. simpl. repeat split.
  - unfold SetRegister. destruct (index =? 31); [exact Hsp|].
    unfold reg_at_put, bind, gets.
    destruct (array_at (reg (jit_state s)) index); simpl; repeat split.
  - unfold SetVector. unfold bind at 1. unfold vec_at_put at 1, bind, gets.
    destruct (array_at (vec (jit_state s)) (wrap64 (index * 2)));
      [|simpl; repeat split].
    unfold modify, vec_at_put, bind, gets.
    cbn [low high vec jit_state with_jit_state set_vec].
    destruct (array_at _ (wrap64 (index * 2 + 1))); simpl; repeat split.
Qed.

(** ** Halt requests and [Run] *)

(** Lines 50-54 and 79-81: a halt requested before [Run] is entered is
    dropped: [Run] clears the flag before the generated code starts, so the
    execution is the one [Run] alone would give. *)
Theorem halt_before_Run_is_dropped :
  forall (body : Comp unit) (s : Impl),
    (HaltExecution ;; Run body) s
    = (EvHaltRequested true :: trace (Run body s), outcome (Run body s)).
Proof.
  intros body s. unfold bind at 1.
  unfold HaltExecution, write_halt_requested, step.
  set (s1 := with_jit_state (set_halt_requested true (jit_state s)) s).
  assert (H : Run body s1 = Run body s).
  { destruct (is_executing s) eqn:Hexec.
    - rewrite !Run_while_executing by assumption. reflexivity.
    - rewrite !Run_idle by assumption. reflexivity. }
  rewrite H. now destruct (Run body s).
Qed.

(** ** Callbacks see an executing coordinator *)

Lemma RunCode_app {P : Pipeline} (g1 g2 : list Call) (s : Impl) :
  RunCode (g1 ++ g2) s = (RunCode g1 ;; RunCode g2) s.
Proof.
  revert s. induction g1 as [|c g1 IH]; intros s.
  - simpl. unfold bind, ret. now destruct (RunCode g2 s).
  - cbn [app RunCode]. unfold bind in *.
    destruct (call c s) as [t [[] s1|s1|]]; try reflexivity.
    rewrite IH.
    destruct (RunCode g1 s1) as [t1 [[] s2|s2|]]; try reflexivity.
    destruct (RunCode g2 s2) as [t2 o2]. now rewrite app_assoc.
Qed.

(** Lines 50-53 and 136-138: whatever callbacks of the generated code have
    returned so far, the next one runs on a coordinator for which
    [IsExecuting] answers [true]. *)
Theorem callbacks_see_executing :
  forall {P : Pipeline} (s : Impl) (before after : list Call),
    is_executing s = false ->
    match RunCode before (entered s) with
    | (t, Ok _ s1) =>
        IsExecuting s1 = ([], Ok true s1)
        /\ RunCode (before ++ after) (entered s)
           = (let (t', o) := RunCode after s1 in (t ++ t', o))
    | (t, OutOfRange s1) => IsExecuting s1 = ([], Ok true s1)
    | (t, Abort) => True
    end.
Proof.
  intros P s before after Hidle.
  pose proof (RunCode_while_executing before (entered s) eq_refl) as Hinv.
  pose proof (RunCode_app before after (entered s)) as Happ.
  unfold bind in Happ.
  destruct (RunCode before (entered s)) as [t [[] s1|s1|]]; [| |exact I].
  - destruct Hinv as [Hexec _]. split; [|exact Happ].
    unfold IsExecuting, gets. now rewrite Hexec.
  - unfold IsExecuting, gets. now rewrite Hinv.
Qed.

Lemma callbacks_see_executing_witness :
  is_executing sample_idle = false
  /\ match RunCode callbacks_until_request (entered sample_idle) with
     | (t, Ok _ s1) => IsExecuting s1 = ([], Ok true s1)
     | _ => False
     end.
Proof.
  split; [reflexivity|].
  exact (proj1 (callbacks_see_executing sample_idle callbacks_until_request
                  [CallSetPC 8192; CallLookupBlock] eq_refl)).
Defined.

(** ** Idle means nothing pending *)

Lemma call_while_idle {P : Pipeline} (c : Call) (s : Impl) :
  is_executing s = false ->
  nothing_pending s ->
  match call c s with
  | (t, Ok _ s') => is_executing s' = false /\ nothing_pending s'
  | (t, OutOfRange s') => True
  | (t, Abort) => True
  end.
Proof.
  intros Hidle Hnone. pose proof Hnone as [Hflag Hranges].
  destruct c; simpl call.
  - unfold bind.
    destruct (EmitX64.GetBasicBlock (emitter s) (GetUniqueHash (jit_state s)))
      as [b|] eqn:Hlookup.
    + rewrite (GetCurrentBlock_hit s b Hlookup). simpl. now split.
    + rewrite (GetCurrentBlock_miss s Hlookup).
      destruct (VerificationPass _); [|exact I].
      destruct (BlockOfCode.SpaceRemaining (block_of_code s)
                <? MINIMUM_REMAINING_CODESIZE); unfold ret.
      * split; [exact Hidle|]. split; reflexivity.
      * split; [exact Hidle|exact Hnone].
  - rewrite Run_idle by exact Hidle.
    match goal with |- context [?body (entered s)] =>
      destruct (body (entered s)) as [t [[] s2|s2|]]; try exact I end.
    split; [reflexivity|]. apply drained_spec.
  - rewrite ClearCache_idle by exact Hidle. split; [exact Hidle|].
    split; reflexivity.
  - assert (Hsep : ICL.separated (invalid_cache_ranges s))
      by (rewrite Hranges; exact I).
    destruct (InvalidateCacheRange_idle s start_address length Hidle Hsep)
      as (Hcall & Hnone' & _).
    rewrite Hcall. split; [|exact Hnone'].
    destruct (drained_spec
                (with_invalid_cache_ranges
                   (ICL.add (invalidated_interval start_address length)
                      (invalid_cache_ranges s)) s)) as (_ & Hsame & _).
    now rewrite Hsame.
  - unfold Reset, bind, gets, ASSERT, step. rewrite Hidle. simpl.
    split; [exact Hidle|exact Hnone].
  - unfold HaltExecution, write_halt_requested, step. now split.
  - unfold SetSP, modify. now split.
  - unfold SetPC, modify. now split.
  - unfold SetRegister. destruct (index =? 31).
    + unfold SetSP, modify. now split.
    + unfold reg_at_put, bind, gets.
      destruct (array_at (reg (jit_state s)) index); [|exact I].
      unfold modify. now split.
  - unfold SetVector. unfold bind at 1. unfold vec_at_put at 1, bind, gets.
    destruct (array_at (vec (jit_state s)) (wrap64 (index * 2))); [|exact I].
    unfold modify, vec_at_put, bind, gets.
    cbn [low high vec jit_state with_jit_state set_vec].
    destruct (array_at _ (wrap64 (index * 2 + 1))); [|exact I].
    now split.
Qed.

(** Lines 50-77 and 167-190: from an idle coordinator with nothing pending,
    any sequence of calls that all return (a [Run] with whatever its
    generated code does, [ClearCache], [InvalidateCacheRange], [Reset],
    [HaltExecution], the setters, a lookup) ends in an idle coordinator with
    nothing pending. *)
Theorem idle_with_nothing_pending_is_kept :
  forall {P : Pipeline} (calls : list Call) (s : Impl),
    is_executing s = false ->
    nothing_pending s ->
    match RunCode calls s with
    | (t, Ok _ s') => is_executing s' = false /\ nothing_pending s'
    | (t, OutOfRange s') => True
    | (t, Abort) => True
    end.
Proof.
  intros P calls. induction calls as [|c calls IH]; intros s Hidle Hnone.
  - simpl. now split.
  - cbn [RunCode]. unfold bind.
    pose proof (call_while_idle c s Hidle Hnone) as Hcall.
    destruct (call c s) as [t1 [[] s1|s1|]]; try exact I.
    destruct Hcall as [Hidle1 Hnone1].
    specialize (IH s1 Hidle1 Hnone1).
    destruct (RunCode calls s1) as [t2 [[] s2|s2|]]; try exact I.
    exact IH.
Qed.

Lemma idle_with_nothing_pending_is_kept_witness :
  is_executing sample_idle = false
  /\ nothing_pending sample_idle
  /\ match RunCode [CallRun callbacks_until_request; CallSetPC 4096;
                    CallInvalidateCacheRange 0 16] sample_idle with
     | (t, Ok _ s') => is_executing s' = false /\ nothing_pending s'
     | _ => True
     end.
Proof.
  assert (H1 : is_executing sample_idle = false) by reflexivity.
  assert (H2 : nothing_pending sample_idle) by (split; reflexivity).
  split; [exact H1|]. split; [exact H2|].
  exact (idle_with_nothing_pending_is_kept
           [CallRun callbacks_until_request; CallSetPC 4096;
            CallInvalidateCacheRange 0 16] sample_idle H1 H2).
Defined.

(** ** More on the lookup callback *)

(** Lines 146-165: a lookup that returned is followed by a hit.  When the
    pipeline registers a block under the key it was translated for, and the
    key does not depend on the return stack buffer, a second lookup in the
    state the first one left asks the emitter only, and returns the same
    entry point, also when the first one evacuated the cache. *)
Theorem lookup_again_hits :
  forall {P : Pipeline} (s : Impl),
    let key := GetUniqueHash (jit_state s) in
    let ir := DeadCodeElimination (Translate key (MemoryReadCode (conf s))) in
    Location ir = key ->
    GetUniqueHash (ResetRSB (jit_state s)) = key ->
    match GetCurrentBlock s with
    | (t, Ok entry s') =>
        GetCurrentBlock s' = ([EvGetBasicBlock key], Ok entry s')
    | (t, OutOfRange s') => False
    | (t, Abort) => VerificationPass ir = false
    end.
Proof.
  intros P s key ir Hloc Hrsb.
  destruct (EmitX64.GetBasicBlock (emitter s) key) as [b|] eqn:Hlookup.
  - rewrite (GetCurrentBlock_hit s b Hlookup).
    now apply GetCurrentBlock_hit.
  - rewrite (GetCurrentBlock_miss s Hlookup). fold key. fold ir.
    destruct (VerificationPass ir); [|reflexivity].
    set (s1 := if BlockOfCode.SpaceRemaining (block_of_code s)
                  <? MINIMUM_REMAINING_CODESIZE then cleared s else s).
    assert (Hkey : GetUniqueHash (jit_state (emitted ir s1)) = key).
    { subst s1. destruct (BlockOfCode.SpaceRemaining (block_of_code s)
                          <? MINIMUM_REMAINING_CODESIZE);
        [exact Hrsb|reflexivity]. }
    pose proof (GetCurrentBlock_hit (emitted ir s1) (new_descriptor ir s1))
      as Hhit.
    cbv zeta in Hhit. rewrite Hkey in Hhit. apply Hhit.
    unfold EmitX64.GetBasicBlock, emitted. cbn [emitter with_emitter].
    unfold EmitX64.register. cbn [EmitX64.block_descriptors].
    rewrite Hloc. apply lookup_insert_eq.
Qed.

Lemma lookup_again_hits_witness :
  Location (DeadCodeElimination
              (Translate (GetUniqueHash (jit_state sample_tight))
                 (MemoryReadCode (conf sample_tight))))
  = GetUniqueHash (jit_state sample_tight)
  /\ GetUniqueHash (ResetRSB (jit_state sample_tight))
     = GetUniqueHash (jit_state sample_tight)
  /\ match GetCurrentBlock sample_tight with
     | (t, Ok entry s') =>
         GetCurrentBlock s' = ([EvGetBasicBlock 0], Ok entry s')
     | _ => False
     end.
Proof.
  split; [reflexivity|]. split; [reflexivity|].
  exact (lookup_again_hits sample_tight eq_refl eq_refl).
Defined.

(** ** Requests of length zero *)

Lemma with_same_ranges (s : Impl) :
  with_invalid_cache_ranges (invalid_cache_ranges s) s = s.
Proof. now destruct s. Qed.

(** Lines 67-72 and 167-179: a request of length 0 at an address other than
    0 builds an empty interval.  While idle with nothing pending it changes
    nothing: no drain, no collaborator called.  While executing it records
    nothing, yet it still sets the halt-request flag. *)
Theorem zero_length_request :
  forall (s_idle s_run : Impl) (start_address : Z),
    is_u64 start_address ->
    1 <= start_address ->
    is_executing s_idle = false ->
    nothing_pending s_idle ->
    is_executing s_run = true ->
    let i := ICL.closed start_address (start_address - 1) in
    InvalidateCacheRange start_address 0 s_idle = ([EvRangesAdd i], Ok tt s_idle)
    /\ InvalidateCacheRange start_address 0 s_run
       = ([EvRangesAdd i; EvHaltRequested true],
          Ok tt (with_jit_state (set_halt_requested true (jit_state s_run))
                   s_run)).
Proof.
  intros s_idle s_run start_address Hu64 Hpos Hidle Hnone Hrun i.
  assert (Hi : invalidated_interval start_address 0 = i).
  { unfold invalidated_interval, i.
    replace (start_address + 0 - 1) with (start_address - 1) by lia.
    rewrite wrap64_small; [reflexivity|].
    unfold is_u64 in *. lia. }
  assert (Hadd : forall S, ICL.add i S = S).
  { intros S. unfold ICL.add, ICL.is_empty, i, ICL.closed, ICL.upper, ICL.lower.
    simpl. replace (start_address - 1 <? start_address) with true
      by (symmetry; apply Z.ltb_lt; lia).
    reflexivity. }
  split.
  - rewrite InvalidateCacheRange_unfold. rewrite Hi, Hadd, with_same_ranges.
    rewrite Request_while_idle by exact Hidle.
    now rewrite Perform_nothing_pending.
  - rewrite InvalidateCacheRange_unfold. rewrite Hi, Hadd, with_same_ranges.
    now rewrite Request_while_executing.
Qed.

Lemma zero_length_request_witness :
  is_u64 4096 /\ 1 <= 4096
  /\ is_executing sample_idle = false
  /\ nothing_pending sample_idle
  /\ is_executing sample_executing = true
  /\ InvalidateCacheRange 4096 0 sample_idle
     = ([EvRangesAdd (4096, 4095)], Ok tt sample_idle).
Proof.
  assert (H1 : is_u64 4096) by (unfold is_u64; rewrite u64_modulus_eq; lia).
  assert (H2 : 1 <= 4096) by lia.
  assert (H3 : nothing_pending sample_idle) by (split; reflexivity).
  split; [exact H1|]. split; [exact H2|]. split; [reflexivity|].
  split; [exact H3|]. split; [reflexivity|].
  exact (proj1 (zero_length_request sample_idle sample_executing 4096
                  H1 H2 eq_refl H3 eq_refl)).
Defined.

(** ** Range invalidation is scoped *)

(** Lines 67-72 and 176-190: a request made while idle, with nothing
    pending, removes no block whose guest addresses lie outside the
    interval: such a block is found under its key afterwards, with the
    descriptor it had. *)
Theorem blocks_outside_the_range_survive :
  forall (s : Impl) (start_address length key : Z)
         (d : EmitX64.BlockDescriptor),
    is_executing s = false ->
    nothing_pending s ->
    EmitX64.GetBasicBlock (emitter s) key = Some d ->
    ICL.intersects (invalidated_interval start_address length)
                   (EmitX64.range d) = false ->
    match InvalidateCacheRange start_address length s with
    | (t, Ok _ s') =>
        EmitX64.GetBasicBlock (emitter s') key = Some d
        /\ nothing_pending s'
    | (t, OutOfRange s') => False
    | (t, Abort) => False
    end.
Proof.
  intros s start_address length key d Hidle [Hflag Hranges] Hlookup Hout.
  assert (Hsep : ICL.separated (invalid_cache_ranges s))
    by (rewrite Hranges; exact I).
  destruct (InvalidateCacheRange_idle s start_address length Hidle Hsep)
    as (Hcall & Hnone & _).
  rewrite Hcall. split; [|exact Hnone].
  set (i := invalidated_interval start_address length) in *.
  set (s1 := with_invalid_cache_ranges (ICL.add i (invalid_cache_ranges s)) s)
    in *.
  destruct (drained_spec s1) as (_ & _ & _ & Hem).
  rewrite (Hem Hflag).
  unfold EmitX64.GetBasicBlock, EmitX64.InvalidateCacheRanges.
  cbn [EmitX64.block_descriptors].
  apply map_lookup_filter_Some. split; [exact Hlookup|].
  cbn [snd]. unfold EmitX64.stale.
  change (invalid_cache_ranges s1) with (ICL.add i (invalid_cache_ranges s)).
  rewrite Hranges. unfold ICL.add.
  destruct (ICL.is_empty i); [reflexivity|].
  assert (Heta : (ICL.lower i, ICL.upper i) = i)
    by (unfold ICL.lower, ICL.upper; symmetry; apply surjective_pairing).
  cbn [ICL.join ICL.set_intersects existsb]. now rewrite Heta, Hout.
Qed.

Lemma blocks_outside_the_range_survive_witness :
  let s := emitted 8192 (emitted 4096 sample_idle) in
  is_executing s = false
  /\ nothing_pending s
  /\ EmitX64.GetBasicBlock (emitter s) 8192
     = Some (EmitX64.mkBlockDescriptor 64 (8192, 8195))
  /\ ICL.intersects (invalidated_interval 4096 4) (8192, 8195) = false
  /\ match InvalidateCacheRange 4096 4 s with
     | (t, Ok _ s') =>
         EmitX64.GetBasicBlock (emitter s') 8192
         = Some (EmitX64.mkBlockDescriptor 64 (8192, 8195))
         /\ nothing_pending s'
     | _ => False
     end.
Proof.
  intros s.
  assert (H1 : is_executing s = false) by reflexivity.
  assert (H2 : nothing_pending s) by (split; reflexivity).
  assert (H3 : EmitX64.GetBasicBlock (emitter s) 8192
               = Some (EmitX64.mkBlockDescriptor 64 (8192, 8195)))
    by (vm_compute; reflexivity).
  assert (H4 : ICL.intersects (invalidated_interval 4096 4) (8192, 8195)
               = false) by reflexivity.
  split; [exact H1|]. split; [exact H2|]. split; [exact H3|].
  split; [exact H4|].
  exact (blocks_outside_the_range_survive s 4096 4 8192
           (EmitX64.mkBlockDescriptor 64 (8192, 8195)) H1 H2 H3 H4).
Defined.

(** ** A request made by the generated code *)

(** A callback that throws while the coordinator is executing has recorded
    nothing and has left what is pending as it was. *)
Lemma call_throws_while_executing {P : Pipeline} (c : Call) (s : Impl) :
  is_executing s = true ->
  match call c s with
  | (t, OutOfRange s') =>
      t = []
      /\ invalidate_entire_cache s' = invalidate_entire_cache s
      /\ invalid_cache_ranges s' = invalid_cache_ranges s
  | _ => True
  end.
Proof.
  intros Hexec. destruct c; simpl call.
  - unfold bind.
    destruct (EmitX64.GetBasicBlock (emitter s) (GetUniqueHash (jit_state s)))
      as [b|] eqn:Hlookup.
    + now rewrite (GetCurrentBlock_hit s b Hlookup).
    + rewrite (GetCurrentBlock_miss s Hlookup).
      now destruct (VerificationPass _).
  - now rewrite Run_while_executing.
  - now rewrite ClearCache_executing.
  - now rewrite InvalidateCacheRange_executing.
  - now rewrite Reset_while_executing.
  - exact I.
  - exact I.
  - exact I.
  - unfold SetRegister. destruct (index =? 31); [exact I|].
    unfold reg_at_put, bind, gets.
    destruct (array_at (reg (jit_state s)) index); [exact I|].
    repeat split.
  - unfold SetVector. unfold bind at 1. unfold vec_at_put at 1, bind, gets.
    destruct (array_at (vec (jit_state s)) (wrap64 (index * 2)));
      [|repeat split].
    unfold modify, vec_at_put, bind, gets.
    cbn [low high vec jit_state with_jit_state set_vec].
    destruct (array_at _ (wrap64 (index * 2 + 1))); [exact I|].
    repeat split.
Qed.

(** Callbacks that end in an exception: as long as no capacity check fell
    below the low-water mark, no drain event was recorded and what was
    pending still is. *)
Lemma RunCode_throws_while_executing {P : Pipeline} (g : list Call) :
  forall s : Impl,
    is_executing s = true ->
    ICL.separated (invalid_cache_ranges s) ->
    match RunCode g s with
    | (t, OutOfRange s') =>
        existsb is_low_space_event t = false ->
        existsb is_drain_event t = false /\ pending_kept s s'
    | _ => True
    end.
Proof.
  induction g as [|c g IH]; intros s Hexec Hsep; [exact I|].
  cbn [RunCode]. unfold bind.
  pose proof (call_while_executing c s Hexec) as Hok.
  pose proof (call_throws_while_executing c s Hexec) as Hthrow.
  destruct (call c s) as [t1 [[] s1|s1|]]; [| |exact I].
  - destruct Hok as [Hexec1 Hok]. destruct (Hok Hsep) as [Hsep1 Hquiet].
    specialize (IH s1 Hexec1 Hsep1).
    destruct (RunCode g s1) as [t2 [[] s2|s2|]]; try exact I.
    rewrite !existsb_app. intros Hlow.
    apply orb_false_iff in Hlow as [Hlow1 Hlow2].
    destruct (Hquiet Hlow1) as (Hd1 & Hk1 & _).
    destruct (IH Hlow2) as (Hd2 & Hk2).
    split; [now rewrite Hd1, Hd2|now apply pending_kept_trans with s1].
  - destruct Hthrow as (-> & Hflag & Hranges). intros _.
    split; [reflexivity|]. split.
    + now rewrite Hflag.
    + intros a. now rewrite Hranges.
Qed.

(** A request made while the coordinator is executing returns, records no
    drain event, is pending afterwards and leaves the code buffer, the block
    table and the return stack buffer as they were. *)
Lemma request_while_executing {P : Pipeline} (c : Call) (s : Impl) :
  is_request c = true ->
  is_executing s = true ->
  ICL.separated (invalid_cache_ranges s) ->
  exists t s',
    call c s = (t, Ok tt s')
    /\ existsb is_drain_event t = false
    /\ is_executing s' = true
    /\ ICL.separated (invalid_cache_ranges s')
    /\ requested c s'
    /\ emitter s' = emitter s
    /\ block_of_code s' = block_of_code s
    /\ rsb (jit_state s') = rsb (jit_state s).
Proof.
  intros Hrequest Hexec Hsep.
  pose proof (call_while_executing c s Hexec) as Hcall.
  destruct c; try discriminate Hrequest; simpl call in *.
  - rewrite ClearCache_executing in * by exact Hexec.
    destruct Hcall as [Hexec' Hcall].
    destruct (Hcall Hsep) as [Hsep' Hquiet].
    destruct (Hquiet eq_refl) as (Hd & _ & Hreq).
    eexists _, _. repeat split; assumption.
  - rewrite InvalidateCacheRange_executing in * by exact Hexec.
    destruct Hcall as [Hexec' Hcall].
    destruct (Hcall Hsep) as [Hsep' Hquiet].
    destruct (Hquiet eq_refl) as (Hd & _ & Hreq).
    eexists _, _. repeat split; assumption.
Qed.

Lemma performed_by_drain (c : Call) (s : Impl) :
  is_request c = true -> requested c s -> performed c (drained s).
Proof.
  intros Hrequest Hreq. destruct c; try discriminate Hrequest;
    simpl in *.
  - destruct (drained_spec s) as (_ & _ & Hentire & _). now apply Hentire.
  - apply no_block_after_drain. now right.
Qed.

(** C1, as the code has it.  While executing, [ClearCache] and
    [InvalidateCacheRange] only record the request and set the halt-request
    flag: no collaborator is called, the code buffer, the block table and the
    return stack buffer are untouched.  While idle they perform the
    invalidation before they return.  For a request made by the generated
    code, whatever ran before it: when [Run] returns, nothing is pending; and
    if no lookup after the request found the capacity below the low-water
    mark, no drain event lies between the request and the return of
    [RunCode], the request is still pending then, and the one drain that
    follows performs it.  When an exception leaves [RunCode] instead, [Run]
    drains nothing and, under the same condition, the request is still
    pending in the idle coordinator. *)
Theorem C1_request_then_perform :
  forall {P : Pipeline} (s_run s_idle : Impl) (start_address length : Z)
         (before after : list Call) (request : Call),
    is_executing s_run = true ->
    is_executing s_idle = false ->
    ICL.separated (invalid_cache_ranges s_idle) ->
    is_request request = true ->
    let i := invalidated_interval start_address length in
    let s1 :=
      with_invalid_cache_ranges (ICL.add i (invalid_cache_ranges s_idle))
        s_idle in
    ClearCache s_run
    = ([EvInvalidateEntireCache true; EvHaltRequested true],
       Ok tt (with_jit_state (set_halt_requested true (jit_state s_run))
                (with_invalidate_entire_cache true s_run)))
    /\ InvalidateCacheRange start_address length s_run
       = ([EvRangesAdd i; EvHaltRequested true],
          Ok tt (with_jit_state (set_halt_requested true (jit_state s_run))
                   (with_invalid_cache_ranges
                      (ICL.add i (invalid_cache_ranges s_run)) s_run)))
    /\ ClearCache s_idle
       = (EvInvalidateEntireCache true :: clear_events, Ok tt (cleared s_idle))
    /\ InvalidateCacheRange start_address length s_idle
       = (EvRangesAdd i :: drain_events s1, Ok tt (drained s1))
    /\ nothing_pending (drained s1)
    /\ no_block_in i (drained s1)
    /\ match RunCode before (entered s_idle) with
       | (t_before, Ok _ s_before) =>
           match call request s_before with
           | (t_request, Ok _ s_request) =>
               existsb is_drain_event t_request = false
               /\ requested request s_request
               /\ emitter s_request = emitter s_before
               /\ block_of_code s_request = block_of_code s_before
               /\ rsb (jit_state s_request) = rsb (jit_state s_before)
               /\ match RunCode after s_request with
                  | (t_after, Ok _ s_mid) =>
                      Run (RunCode (before ++ request :: after)) s_idle
                      = (run_prefix ++ t_before ++ t_request ++ t_after
                           ++ EvRunCodeReturn :: drain_events s_mid
                           ++ [EvIsExecuting false],
                         Ok tt (with_is_executing false (drained s_mid)))
                      /\ nothing_pending
                           (with_is_executing false (drained s_mid))
                      /\ (existsb is_low_space_event t_after = false ->
                          existsb is_drain_event t_after = false
                          /\ requested request s_mid
                          /\ performed request
                               (with_is_executing false (drained s_mid)))
                  | (t_after, OutOfRange s_thrown) =>
                      Run (RunCode (before ++ request :: after)) s_idle
                      = (run_prefix ++ t_before ++ t_request ++ t_after
                           ++ [EvIsExecuting false],
                         OutOfRange (with_is_executing false s_thrown))
                      /\ (existsb is_low_space_event t_after = false ->
                          existsb is_drain_event t_after = false
                          /\ requested request
                               (with_is_executing false s_thrown))
                  | (t_after, Abort) => True
                  end
           | (t_request, OutOfRange _) => False
           | (t_request, Abort) => False
           end
       | (t_before, OutOfRange _) => True
       | (t_before, Abort) => True
       end.
Proof.
  intros P s_run s_idle start_address length before after request
         Hrun Hidle Hsep Hrequest i s1.
  split; [now apply ClearCache_executing|].
  split; [now apply InvalidateCacheRange_executing|].
  split; [now apply ClearCache_idle|].
  destruct (InvalidateCacheRange_idle s_idle start_address length Hidle Hsep)
    as (Hcall & Hnone & Hblocks).
  split; [exact Hcall|]. split; [exact Hnone|]. split; [exact Hblocks|].
  pose proof (RunCode_while_executing before (entered s_idle) eq_refl) as Hb.
  pose proof (Run_idle (RunCode (before ++ request :: after)) s_idle Hidle)
    as HRun.
  rewrite RunCode_app in HRun. unfold bind at 1 in HRun.
  destruct (RunCode before (entered s_idle)) as [t_b [[] s_b|s_b|]];
    try exact I.
  destruct Hb as [Hexec_b Hb]. destruct (Hb Hsep) as [Hsep_b _].
  destruct (request_while_executing request s_b Hrequest Hexec_b Hsep_b)
    as (t_r & s_r & Hreq & Hd_r & Hexec_r & Hsep_r & Hpending_r
        & Hem & Hboc & Hrsb).
  cbn [RunCode] in HRun. unfold bind at 1 in HRun.
  rewrite Hreq in *.
  split; [exact Hd_r|]. split; [exact Hpending_r|]. split; [exact Hem|].
  split; [exact Hboc|]. split; [exact Hrsb|].
  pose proof (RunCode_while_executing after s_r Hexec_r) as Hok.
  pose proof (RunCode_throws_while_executing after s_r Hexec_r Hsep_r)
    as Hthrow.
  destruct (RunCode after s_r) as [t_a [[] s_mid|s_x|]]; [| |exact I].
  - destruct Hok as [_ Hok]. destruct (Hok Hsep_r) as [_ Hquiet].
    destruct (drained_spec s_mid) as (Hnone_mid & _).
    split.
    { rewrite HRun. unfold run_prefix. cbn [app].
      rewrite <- !app_assoc. reflexivity. }
    split; [exact Hnone_mid|].
    intros Hlow. destruct (Hquiet Hlow) as (Hd_a & Hkept & _).
    assert (Hreq_mid : requested request s_mid)
      by (now apply requested_kept with s_r).
    split; [exact Hd_a|]. split; [exact Hreq_mid|].
    pose proof (performed_by_drain request s_mid Hrequest Hreq_mid) as Hperf.
    destruct request; try discriminate Hrequest; exact Hperf.
  - split.
    { rewrite HRun. unfold run_prefix. cbn [app].
      rewrite <- !app_assoc. reflexivity. }
    intros Hlow. destruct (Hthrow Hlow) as (Hd_a & Hkept).
    split; [exact Hd_a|].
    pose proof (requested_kept request s_r s_x Hpending_r Hkept) as Hreq_x.
    destruct request; try discriminate Hrequest; exact Hreq_x.
Qed.

Lemma C1_request_then_perform_witness :
  is_executing sample_executing = true
  /\ is_executing sample_tight = false
  /\ ICL.separated (invalid_cache_ranges sample_tight)
  /\ is_request (CallInvalidateCacheRange 8192 4) = true
  /\ InvalidateCacheRange 8192 4 sample_executing
     = ([EvRangesAdd (8192, 8195); EvHaltRequested true],
        Ok tt (with_jit_state
                 (set_halt_requested true (jit_state sample_executing))
                 (with_invalid_cache_ranges [(8192, 8195)] sample_executing)))
  /\ match Run (RunCode (callbacks_with_evacuation
                           ++ CallInvalidateCacheRange 8192 4 :: []))
             sample_tight with
     | (t, Ok _ s') =>
         existsb is_low_space_event t = true
         /\ nothing_pending s'
         /\ no_block_in (8192, 8195) s'
     | _ => False
     end.
Proof.
  split; [reflexivity|]. split; [reflexivity|]. split; [exact I|].
  split; [reflexivity|].
  pose proof (C1_request_then_perform sample_executing sample_tight 8192 4
                callbacks_with_evacuation []
                (CallInvalidateCacheRange 8192 4) eq_refl eq_refl I eq_refl)
    as (_ & Hrequest & _ & _ & _ & _ & Hrun).
  split; [exact Hrequest|].
  destruct (RunCode callbacks_with_evacuation (entered sample_tight))
    as [t_b [[] s_b|s_b|]] eqn:Eb;
    [|vm_compute in Eb; discriminate Eb|vm_compute in Eb; discriminate Eb].
  assert (Ht : t_b = trace (RunCode callbacks_with_evacuation
                              (entered sample_tight)))
    by (now rewrite Eb).
  destruct (call (CallInvalidateCacheRange 8192 4) s_b)
    as [t_r [[] s_r|s_r|]]; [|contradiction|contradiction].
  destruct Hrun as (_ & _ & _ & _ & _ & Hafter).
  cbn [RunCode] in Hafter. unfold ret in Hafter.
  destruct Hafter as (HRun & Hnone & Hguard).
  destruct (Hguard eq_refl) as (_ & _ & Hperformed).
  rewrite HRun. split; [|split; [exact Hnone|exact Hperformed]].
  unfold run_prefix. rewrite !existsb_app.
  replace (existsb is_low_space_event t_b) with true
    by (rewrite Ht; vm_compute; reflexivity).
  now rewrite orb_true_r.
Defined.
